(** * Tool-calling loops of the AI-Agents repository

    A shallow embedding of

    - [projects/01.me/me_with_tools.py]: the persona chatbot [Me] with its two
      notification tools, and
    - [LangChain-Academy/module-1/studio/router.py]: the two-node router graph.

    Python values are an inductive type, objects that are mutated or shared
    (the [messages] list, the caller's [history], [Me] instances) live in a
    heap, and every interaction with the outside (stdout, the push webhook,
    the chat-completion endpoint, the PDF and summary files) is an event of an
    I/O trace that records the answer the outside gave.  The outside itself is
    a record of functions of the trace so far, so a theorem quantified over
    that record speaks about every behaviour of the model, the network and the
    files. *)

From stdpp Require Import gmap strings list fin_maps pretty.
From Stdlib Require Import ZArith Ascii.

Local Open Scope string_scope.
Local Open Scope list_scope.

#[local] Set Warnings "-register-all".

(** ** Outcomes and the state-and-exception monad *)

(** The exceptions the two scripts can meet.  [LibraryError] stands for an
    exception raised inside a third-party library (a JSON decoding error, a
    connection error, a missing file, ...), named by its class. *)
Inductive exn : Type :=
| TypeError
| IndexError
| AttributeError
| LibraryError (cls : string).

(** A Python computation returns, raises, or is still running when the fuel
    of the model is spent ([OutOfFuel]: only [while] loops consume fuel). *)
Inductive outcome (A : Type) : Type :=
| Ok (a : A)
| Raise (e : exn)
| OutOfFuel.

Arguments Ok {A} a.
Arguments Raise {A} e.
Arguments OutOfFuel {A}.

Definition M (W A : Type) : Type := W -> outcome A * W.

Definition ret {W A} (a : A) : M W A := fun w => (Ok a, w).

Definition raise {W A} (e : exn) : M W A := fun w => (Raise e, w).

Definition out_of_fuel {W A} : M W A := fun w => (OutOfFuel, w).

Definition bind {W A B} (m : M W A) (k : A -> M W B) : M W B :=
  fun w =>
    match m w with
    | (Ok a, w') => k a w'
    | (Raise e, w') => (Raise e, w')
    | (OutOfFuel, w') => (OutOfFuel, w')
    end.

Notation "x <- m ;; k" := (bind m (fun x => k))
  (at level 100, m at next level, right associativity).
Notation "m ;;; k" := (bind m (fun _ => k))
  (at level 100, right associativity).

(** [for x in xs: body x] *)
Fixpoint for_each {W A} (xs : list A) (body : A -> M W unit) : M W unit :=
  match xs with
  | [] => ret tt
  | x :: xs' => body x ;;; for_each xs' body
  end.

(** [while cond: body].  The condition is tested before the fuel, so [fuel]
    counts the iterations that may still start. *)
Fixpoint while_loop {W S} (fuel : nat) (cond : S -> bool) (body : S -> M W S)
    (s : S) : M W S :=
  if cond s then
    match fuel with
    | O => out_of_fuel
    | Datatypes.S fuel' => s' <- body s ;; while_loop fuel' cond body s'
    end
  else ret s.

(** ** Python values *)

(** [tool_call.id], [tool_call.function.name], [tool_call.function.arguments] *)
Record ToolCall : Type := {
  tc_id : string;
  tc_name : string;
  tc_arguments : string
}.

(** The assistant message of a chat completion; both fields are optional in
    the SDK. *)
Record ChatCompletionMessage : Type := {
  content : option string;
  tool_calls : option (list ToolCall)
}.

Record Choice : Type := {
  finish_reason : string;
  message : ChatCompletionMessage
}.

Record ChatCompletion : Type := {
  choices : list Choice
}.

(** The functions defined with [def] in me_with_tools.py. *)
Inductive func : Type :=
| Fpush
| Frecord_user_details
| Frecord_unknown_question.

(** Values.  Dictionaries keep insertion order, so they are association
    lists; a float is its binary64 bit pattern. *)
Inductive pyval : Type :=
| PNone
| PBool (b : bool)
| PInt (z : Z)
| PFloat (bits : Z)
| PStr (s : string)
| PList (l : list pyval)
| PDict (d : list (string * pyval))
| PMessage (m : ChatCompletionMessage)
| PModule (name : string)
| PFunction (f : func)
| PClassMe
| PInstance (l : nat)
| PForeign (name : string).

(** Truth value of an object, as [if tool] and [if text] test it. *)
Definition truthy (v : pyval) : bool :=
  match v with
  | PNone => false
  | PBool b => b
  | PInt z => negb (z =? 0)%Z
  | PFloat bits => negb (Z.land bits (2 ^ 63 - 1) =? 0)%Z
  | PStr s => negb (String.eqb s "")
  | PList l => match l with [] => false | _ => true end
  | PDict d => match d with [] => false | _ => true end
  | _ => true
  end.

(** [d.get(k)] on an association list. *)
Fixpoint dict_get (k : string) (d : list (string * pyval)) : option pyval :=
  match d with
  | [] => None
  | (k', v) :: d' => if String.eqb k k' then Some v else dict_get k d'
  end.

Definition dict_keys (d : list (string * pyval)) : list string := map fst d.

Definition mem_string (k : string) (ks : list string) : bool :=
  existsb (String.eqb k) ks.

(** [a or b] *)
Definition py_or (a b : pyval) : pyval := if truthy a then a else b.

(** [os.path.join(a, b)] on a POSIX system. *)
Definition starts_with_slash (s : string) : bool :=
  match s with
  | String c _ => Ascii.eqb c "/"%char
  | EmptyString => false
  end.

Fixpoint ends_with_slash (s : string) : bool :=
  match s with
  | EmptyString => false
  | String c EmptyString => Ascii.eqb c "/"%char
  | String _ s' => ends_with_slash s'
  end.

Definition path_join (a b : string) : string :=
  if starts_with_slash b then b
  else if String.eqb a "" || ends_with_slash a then a +:+ b
  else a +:+ "/" +:+ b.

(** [os.path.dirname(p)] on a POSIX system: the part before the last slash,
    without trailing slashes unless it consists of slashes only. *)
Fixpoint has_slash (s : string) : bool :=
  match s with
  | EmptyString => false
  | String c s' => Ascii.eqb c "/"%char || has_slash s'
  end.

Fixpoint all_slashes (s : string) : bool :=
  match s with
  | EmptyString => true
  | String c s' => Ascii.eqb c "/"%char && all_slashes s'
  end.

Fixpoint dir_head (s : string) : string :=
  match s with
  | EmptyString => EmptyString
  | String c s' => if has_slash s then String c (dir_head s') else EmptyString
  end.

Fixpoint rstrip_slashes (s : string) : string :=
  match s with
  | EmptyString => EmptyString
  | String c s' => if all_slashes s then EmptyString else String c (rstrip_slashes s')
  end.

Definition path_dirname (p : string) : string :=
  let head := dir_head p in
  if negb (String.eqb head "") && negb (all_slashes head)
  then rstrip_slashes head else head.

(** The newline character of [\n]. *)
Definition nl : string := String "010"%char EmptyString.

(** * projects/01.me/me_with_tools.py *)

Module me_with_tools.

(** The keyword arguments of [chat.completions.create]. *)
Record ChatRequest : Type := {
  rq_model : string;
  rq_messages : list pyval;
  rq_tools : pyval
}.

(** One interaction with the outside, with the answer it got: [inl e] when
    the library raised [e]. *)
Inductive event : Type :=
| EvPrint (line : string)
| EvPost (url : pyval) (data : pyval) (r : exn + unit)
| EvCreate (req : ChatRequest) (r : exn + ChatCompletion)
| EvOpenAI (r : exn + unit)
| EvPdfReader (path : string) (r : exn + nat)
| EvExtractText (path : string) (page : nat) (r : exn + string)
| EvRead (path : string) (r : exn + string).

(** Heap objects: Python lists that are passed by reference, and [Me]
    instances as their attribute dictionaries. *)
Inductive obj : Type :=
| OList (l : list pyval)
| OInstance (attrs : gmap string pyval).

Record World : Type := {
  trace : list event;
  heap : gmap nat obj
}.

(** The outside.  The I/O functions see the trace so far, so they may answer
    differently from call to call; the JSON codec, [str] and the imported
    callables are functions of their arguments. *)
Record Env : Type := {
  getenv : string -> option string;
  dunder_file : string;
  OpenAI_new : list event -> exn + unit;
  PdfReader_open : list event -> string -> exn + nat;
  extract_text : list event -> string -> nat -> exn + string;
  open_read : list event -> string -> exn + string;
  requests_post : list event -> pyval -> pyval -> exn + unit;
  completions_create : list event -> ChatRequest -> exn + ChatCompletion;
  json_loads : string -> exn + pyval;
  json_dumps : pyval -> exn + string;
  py_str : pyval -> string;
  foreign_call : string -> list (string * pyval) -> exn + pyval
}.

Definition with_trace (w : World) (t : list event) : World :=
  {| trace := t; heap := heap w |}.

Definition with_heap (w : World) (h : gmap nat obj) : World :=
  {| trace := trace w; heap := h |}.

Definition lift {A} (r : exn + A) : M World A :=
  match r with
  | inl e => raise e
  | inr a => ret a
  end.

(** A call into a library: the answer depends on the trace so far and is
    logged with the call. *)
Definition external {A} (ask : list event -> exn + A)
    (ev : exn + A -> event) : M World A :=
  fun w =>
    let r := ask (trace w) in
    lift r (with_trace w (trace w ++ [ev r])).

Definition print (line : string) : M World unit :=
  fun w => (Ok tt, with_trace w (trace w ++ [EvPrint line])).

Definition alloc (o : obj) : M World nat :=
  fun w =>
    let l := fresh (dom (heap w)) in
    (Ok l, with_heap w (<[l := o]> (heap w))).

Definition read_list (l : nat) : M World (list pyval) :=
  fun w =>
    match heap w !! l with
    | Some (OList xs) => (Ok xs, w)
    | _ => (Raise TypeError, w)
    end.

(** [l.extend(xs)] *)
Definition list_extend (l : nat) (xs : list pyval) : M World unit :=
  fun w =>
    match heap w !! l with
    | Some (OList ys) => (Ok tt, with_heap w (<[l := OList (ys ++ xs)]> (heap w)))
    | _ => (Raise AttributeError, w)
    end.

(** [l.append(x)] *)
Definition list_append (l : nat) (x : pyval) : M World unit :=
  list_extend l [x].

Definition getattr (self : nat) (a : string) : M World pyval :=
  fun w =>
    match heap w !! self with
    | Some (OInstance attrs) =>
        match attrs !! a with
        | Some v => (Ok v, w)
        | None => (Raise AttributeError, w)
        end
    | _ => (Raise AttributeError, w)
    end.

Definition setattr (self : nat) (a : string) (v : pyval) : M World unit :=
  fun w =>
    match heap w !! self with
    | Some (OInstance attrs) =>
        (Ok tt, with_heap w (<[self := OInstance (<[a := v]> attrs)]> (heap w)))
    | _ => (Raise AttributeError, w)
    end.

(** [xs[0]] *)
Definition index0 {A} (xs : list A) : M World A :=
  match xs with
  | x :: _ => ret x
  | [] => raise IndexError
  end.

(** The JSON tool descriptions, lines 42-87. *)
Definition record_user_details_json : pyval :=
  PDict [
    ("name", PStr "record_user_details");
    ("description", PStr "Use this tool to record that a user is interested in being in touch ans provided an email adress");
    ("parameters", PDict [
      ("type", PStr "object");
      ("properties", PDict [
        ("email", PDict [
          ("type", PStr "string");
          ("description", PStr "The email adress of this user")]);
        ("name", PDict [
          ("type", PStr "string");
          ("description", PStr "The name of this user")]);
        ("notes", PDict [
          ("type", PStr "string");
          ("description", PStr "Any additional information that is worth recording")])]);
      ("required", PList [PStr "email"]);
      ("additionalProperties", PBool false)])].

Definition record_unknown_question_json : pyval :=
  PDict [
    ("name", PStr "record_unknown_question");
    ("description", PStr "Always use this tool to record any question that couldn't be answered or you didn't know the answer to");
    ("parameters", PDict [
      ("type", PStr "object");
      ("properties", PDict [
        ("question", PDict [
          ("type", PStr "string");
          ("description", PStr "The question that couldn't be answered")])]);
      ("required", PList [PStr "question"]);
      ("additionalProperties", PBool false)])].

Definition tools : pyval :=
  PList [
    PDict [("type", PStr "function"); ("function", record_user_details_json)];
    PDict [("type", PStr "function"); ("function", record_unknown_question_json)]].

(** The state of the loop of [Me.chat]: the local variables [done] and
    [response]. *)
Record ChatLoop : Type := {
  done : bool;
  response : option ChatCompletion
}.

Section Script.

(** The outside, and the address of the instance that line 159 binds to the
    global [me]. *)
Variable E : Env.
Variable me : nat.

(** A value inside an f-string. *)
Definition fmt (v : pyval) : string :=
  match v with
  | PStr s => s
  | _ => py_str E v
  end.

Definition os_getenv (k : string) : pyval :=
  match getenv E k with
  | Some s => PStr s
  | None => PNone
  end.

Definition pushover_token : pyval := os_getenv "PUSHOVER_TOKEN".
Definition pushover_user : pyval := os_getenv "PUSHOVER_USER".
Definition pushover_url : pyval := py_or (os_getenv "PUSHOVER_URL") (PStr "").

Definition push (message : pyval) : M World pyval :=
  print ("Pushing notification: " +:+ fmt message) ;;;
  let payload :=
    PDict [("token", pushover_token); ("user", pushover_user); ("message", message)] in
  external (fun t => requests_post E t pushover_url payload)
           (EvPost pushover_url payload) ;;;
  ret PNone.

Definition record_user_details (email name notes : pyval) : M World pyval :=
  push (PStr ("Recording interest from " +:+ fmt name +:+ " with email "
              +:+ fmt email +:+ " and notes: " +:+ fmt notes)) ;;;
  ret (PDict [("recorded", PStr "ok")]).

Definition record_unknown_question (question : pyval) : M World pyval :=
  push (PStr ("Recording " +:+ fmt question +:+ " asked that I couldn't answer")) ;;;
  ret (PDict [("recorded", PStr "ok")]).

(** ** Calling a function with [**arguments] *)

(** Python binds keyword arguments to a signature: every key names a
    parameter and every parameter without default has a key. *)
Definition kwargs_fit (required optional : list string)
    (kw : list (string * pyval)) : bool :=
  forallb (fun k => mem_string k (required ++ optional)) (dict_keys kw)
  && forallb (fun r => mem_string r (dict_keys kw)) required.

Definition kwarg (k : string) (dflt : pyval) (kw : list (string * pyval)) : pyval :=
  match dict_get k kw with
  | Some v => v
  | None => dflt
  end.

Definition call_function (f : func) (kw : list (string * pyval)) : M World pyval :=
  match f with
  | Fpush =>
      if kwargs_fit ["message"] [] kw
      then push (kwarg "message" PNone kw)
      else raise TypeError
  | Frecord_user_details =>
      if kwargs_fit ["email"] ["name"; "notes"] kw
      then record_user_details (kwarg "email" PNone kw)
             (kwarg "name" (PStr "Name not provided") kw)
             (kwarg "notes" (PStr "Not provided") kw)
      else raise TypeError
  | Frecord_unknown_question =>
      if kwargs_fit ["question"] [] kw
      then record_unknown_question (kwarg "question" PNone kw)
      else raise TypeError
  end.

(** ** class Me *)

(** [__init__] *)
Definition Me_init (self : nat) : M World unit :=
  external (OpenAI_new E) EvOpenAI ;;;
  setattr self "openai" (PForeign "OpenAI()") ;;;
  setattr self "name" (PStr "Ypatios Chaniotakos") ;;;
  let base_dir := path_dirname (dunder_file E) in
  let pdf_path := path_join (path_join base_dir "data") "chaniotakos.pdf" in
  npages <- external (fun t => PdfReader_open E t pdf_path) (EvPdfReader pdf_path) ;;
  setattr self "bio" (PStr "") ;;;
  for_each (seq 0 npages) (fun page =>
    text <- external (fun t => extract_text E t pdf_path page)
                     (EvExtractText pdf_path page) ;;
    if truthy (PStr text)
    then
      bio <- getattr self "bio" ;;
      match bio with
      | PStr b => setattr self "bio" (PStr (b +:+ text))
      | _ => raise TypeError
      end
    else ret tt) ;;;
  let base_dir := path_dirname (dunder_file E) in
  let summary_path := path_join (path_join base_dir "data") "summary.txt" in
  summary <- external (fun t => open_read E t summary_path) (EvRead summary_path) ;;
  setattr self "summary" (PStr summary).

(** [Me()] *)
Definition Me_new : M World nat :=
  self <- alloc (OInstance ∅) ;;
  Me_init self ;;;
  ret self.

(** The module namespace when the script runs as [__main__], after line
    159. *)
Definition module_globals : gmap string pyval :=
  list_to_map [
    ("__name__", PStr "__main__");
    ("__doc__", PNone);
    ("__package__", PNone);
    ("__loader__", PForeign "__loader__");
    ("__spec__", PNone);
    ("__builtins__", PModule "builtins");
    ("__file__", PStr (dunder_file E));
    ("OpenAI", PForeign "OpenAI");
    ("os", PModule "os");
    ("load_dotenv", PForeign "load_dotenv");
    ("requests", PModule "requests");
    ("json", PModule "json");
    ("PdfReader", PForeign "PdfReader");
    ("gr", PModule "gradio");
    ("Any", PForeign "Any");
    ("cast", PForeign "cast");
    ("pushover_token", pushover_token);
    ("pushover_user", pushover_user);
    ("pushover_url", pushover_url);
    ("push", PFunction Fpush);
    ("record_user_details", PFunction Frecord_user_details);
    ("record_unknown_question", PFunction Frecord_unknown_question);
    ("record_user_details_json", record_user_details_json);
    ("record_unknown_question_json", record_unknown_question_json);
    ("tools", tools);
    ("Me", PClassMe);
    ("me", PInstance me)].

(** [globals().get(name)] *)
Definition globals_get (name : string) : pyval :=
  match module_globals !! name with
  | Some v => v
  | None => PNone
  end.

(** The call [tool( **arguments )]: unpacking needs a mapping, calling needs
    a callable. *)
Definition call_tool (tool arguments : pyval) : M World pyval :=
  match arguments with
  | PDict kw =>
      match tool with
      | PFunction f => call_function f kw
      | PClassMe =>
          match kw with
          | [] => self <- Me_new ;; ret (PInstance self)
          | _ => raise TypeError
          end
      | PForeign name => lift (foreign_call E name kw)
      | _ => raise TypeError
      end
  | _ => raise TypeError
  end.

Definition tool_message (content : string) (tool_call : ToolCall) : pyval :=
  PDict [("role", PStr "tool"); ("content", PStr content);
         ("tool_call_id", PStr (tc_id tool_call))].

(** The value of [result] at line 122. *)
Definition dispatch (tool_call : ToolCall) (arguments : pyval) : M World pyval :=
  let tool := globals_get (tc_name tool_call) in
  if truthy tool then call_tool tool arguments else ret (PDict []).

(** The body of the [for] loop of [handle_tool_call]: the entry appended to
    [results]. *)
Definition handle_one (tool_call : ToolCall) : M World pyval :=
  let tool_name := tc_name tool_call in
  arguments <- lift (json_loads E (tc_arguments tool_call)) ;;
  print ("Tool called: " +:+ tool_name) ;;;
  result <- dispatch tool_call arguments ;;
  content <- lift (json_dumps E result) ;;
  ret (tool_message content tool_call).

Fixpoint handle_loop (tool_calls : list ToolCall) (results : list pyval)
    : M World (list pyval) :=
  match tool_calls with
  | [] => ret results
  | tool_call :: rest =>
      entry <- handle_one tool_call ;;
      handle_loop rest (results ++ [entry])
  end.

(** [handle_tool_call]; iterating over [None] is a [TypeError]. *)
Definition Me_handle_tool_call (self : nat) (tool_calls : option (list ToolCall))
    : M World (list pyval) :=
  match tool_calls with
  | Some calls => handle_loop calls []
  | None => raise TypeError
  end.

(** The text that [system_prompt] builds, lines 127-136: the backslashes at
    the line ends join the lines of the first f-string. *)
Definition prompt_text (name summary bio : pyval) : string :=
  ("You are acting as " +:+ fmt name +:+ ". You are answering questions on "
   +:+ fmt name +:+ "'s website, particularly questions related to "
   +:+ fmt name +:+ "'s career, background, skills and experience. Your responsibility is to represent "
   +:+ fmt name +:+ " for interactions on the website as faithfully as possible. You are given a summary of "
   +:+ fmt name +:+ "'s background and bio profile which you can use to answer questions. Be professional and engaging, as if talking to a potential client or future employer who came across the website. If you don't know the answer to any question, use your record_unknown_question tool to record the question that you couldn't answer, even if it's about something trivial or unrelated to career. If the user is engaging in discussion, try to steer them towards getting in touch via email; ask for their email and record it using your record_user_details tool. ")
  +:+ (nl +:+ nl +:+ "## Summary:" +:+ nl +:+ fmt summary +:+ nl +:+ nl
       +:+ "## bio Profile:" +:+ nl +:+ fmt bio +:+ nl +:+ nl)
  +:+ ("With this context, please chat with the user, always staying in character as "
       +:+ fmt name +:+ ".").

(** The attributes are read in the order in which the f-strings first use
    them; reading one again gives the same value. *)
Definition Me_system_prompt (self : nat) : M World string :=
  name <- getattr self "name" ;;
  summary <- getattr self "summary" ;;
  bio <- getattr self "bio" ;;
  ret (prompt_text name summary bio).

(** [content] as a Python value. *)
Definition content_value (c : option string) : pyval :=
  match c with
  | Some s => PStr s
  | None => PNone
  end.

Definition chat_request (msgs : list pyval) : ChatRequest :=
  {| rq_model := "gpt-4o-mini"; rq_messages := msgs; rq_tools := tools |}.

(** The body of the [while] loop of [chat], lines 144-152.  The call of line
    144 first evaluates [self.openai]; the request carries the entries that
    [messages] holds at that moment. *)
Definition chat_body (self messages : nat) (st : ChatLoop) : M World ChatLoop :=
  client <- getattr self "openai" ;;
  msgs <- read_list messages ;;
  resp <- external (fun t => completions_create E t (chat_request msgs))
                   (EvCreate (chat_request msgs)) ;;
  choice <- index0 (choices resp) ;;
  if String.eqb (finish_reason choice) "tool_calls"
  then
    let message := message choice in
    results <- Me_handle_tool_call self (tool_calls message) ;;
    list_append messages (PMessage message) ;;;
    list_extend messages results ;;;
    ret {| done := done st; response := Some resp |}
  else ret {| done := true; response := Some resp |}.

(** The loop [while not done], lines 143-152. *)
Definition chat_loop (self messages : nat) (fuel : nat)
    : ChatLoop -> M World ChatLoop :=
  while_loop fuel (fun st => negb (done st)) (chat_body self messages).

(** The world after the answer [r] to the request for [msgs] has arrived. *)
Definition arrived (w : World) (msgs : list pyval) (r : exn + ChatCompletion)
    : World :=
  with_trace w (trace w ++ [EvCreate (chat_request msgs) r]).

(** The statements after the loop, lines 153-155. *)
Definition chat_return (st : ChatLoop) : M World pyval :=
  match response st with
  | None => ret (PStr "")
  | Some resp =>
      choice <- index0 (choices resp) ;;
      ret (content_value (content (message choice)))
  end.

(** [chat]; [history] is the address of the caller's list. *)
Definition Me_chat (fuel : nat) (self : nat) (message : pyval) (history : nat)
    : M World pyval :=
  prompt <- Me_system_prompt self ;;
  hist <- read_list history ;;
  messages <- alloc (OList ([PDict [("role", PStr "system"); ("content", PStr prompt)]]
                            ++ hist
                            ++ [PDict [("role", PStr "user"); ("content", message)]])) ;;
  st <- chat_loop self messages fuel {| done := false; response := None |} ;;
  chat_return st.

End Script.

End me_with_tools.

(** * LangChain-Academy/module-1/studio/router.py *)

Module router.

(** ** Tools *)

Definition multiply (a b : Z) : Z := (a * b)%Z.

Definition add (a b : Z) : Z := (a + b)%Z.

(** ** Messages *)

(** An entry of [AIMessage.tool_calls]. *)
Record ToolRequest : Type := {
  tr_name : string;
  tr_args : list (string * pyval);
  tr_id : string
}.

Inductive msg : Type :=
| HumanMessage (text : string)
| AIMessage (text : string) (requests : list ToolRequest)
| ToolMessage (text : string) (name : string) (tool_call_id : string).

(** The only interaction with the outside is [llm_with_tools.invoke]. *)
Inductive event : Type :=
| EvInvoke (messages : list msg) (r : exn + msg).

Record World : Type := {
  trace : list event
}.

(** The outside: the bound model, which answers with an [AIMessage], and what
    the prebuilt [ToolNode] does with a request that is not a call of
    [multiply] or [add] on two integers. *)
Record Env : Type := {
  llm_invoke : list event -> list msg -> exn + (string * list ToolRequest);
  tool_fallback : ToolRequest -> exn + string
}.

Definition lift {A} (r : exn + A) : M World A :=
  match r with
  | inl e => raise e
  | inr a => ret a
  end.

(** ** The graph library, as far as the script uses it *)

Definition START : string := "__start__".
Definition END : string := "__end__".

(** A node maps the state to an update, the messages that the reducer of
    [MessagesState] appends. *)
Record StateGraph : Type := {
  nodes : gmap string (list msg -> M World (list msg));
  edges : list (string * string);
  branches : list (string * (list msg -> exn + string))
}.

Definition empty_graph : StateGraph :=
  {| nodes := ∅; edges := []; branches := [] |}.

Definition add_node (name : string) (action : list msg -> M World (list msg))
    (g : StateGraph) : StateGraph :=
  {| nodes := <[name := action]> (nodes g); edges := edges g; branches := branches g |}.

Definition add_edge (start_key end_key : string) (g : StateGraph) : StateGraph :=
  {| nodes := nodes g; edges := edges g ++ [(start_key, end_key)]; branches := branches g |}.

Definition add_conditional_edges (source : string) (path : list msg -> exn + string)
    (g : StateGraph) : StateGraph :=
  {| nodes := nodes g; edges := edges g; branches := branches g ++ [(source, path)] |}.

(** The node that runs after [node]: its edge if it has one, else the choice
    of its conditional edge; [None] when nothing leaves the node. *)
Definition next_node (g : StateGraph) (node : string) (state : list msg)
    : M World (option string) :=
  match List.find (fun e => String.eqb (fst e) node) (edges g) with
  | Some (_, target) => ret (Some target)
  | None =>
      match List.find (fun b => String.eqb (fst b) node) (branches g) with
      | Some (_, path) => target <- lift (path state) ;; ret (Some target)
      | None => ret None
      end
  end.

(** The steps of a run from [node]; [limit] is the recursion limit of the
    library.  The library finds out that a run is over at the start of a
    step, so arriving at the end takes one step of the limit: a run that
    executes [k] nodes needs a limit above [k], and with a smaller one it
    raises after the nodes that the limit allowed have run. *)
Fixpoint run_from (limit : nat) (g : StateGraph) (node : string) (state : list msg)
    : M World (list msg) :=
  match limit with
  | O => raise (LibraryError "GraphRecursionError")
  | S limit' =>
      if String.eqb node END then ret state
      else
        match nodes g !! node with
        | None => raise (LibraryError "ValueError")
        | Some action =>
            update <- action state ;;
            let state' := state ++ update in
            next <- next_node g node state' ;;
            match next with
            | Some target => run_from limit' g target state'
            | None => run_from limit' g END state'
            end
        end
  end.

Definition recursion_limit : nat := 25.

(** [graph.invoke(state)] *)
Definition invoke (g : StateGraph) (state : list msg) : M World (list msg) :=
  next <- next_node g START state ;;
  match next with
  | Some target => run_from recursion_limit g target state
  | None => ret state
  end.

(** [tools_condition]: to the tools when the last message is an [AIMessage]
    that requests some, else to the end. *)
Definition tools_condition (state : list msg) : exn + string :=
  match last state with
  | Some (AIMessage _ (_ :: _)) => inr "tools"
  | Some _ => inr END
  | None => inl (LibraryError "ValueError")
  end.

Section Script.

Variable E : Env.

Definition int_args (r : ToolRequest) : option (Z * Z) :=
  match dict_get "a" (tr_args r), dict_get "b" (tr_args r) with
  | Some (PInt a), Some (PInt b) =>
      if Nat.eqb (List.length (tr_args r)) 2 then Some (a, b) else None
  | _, _ => None
  end.

(** One request handled by [ToolNode([multiply, add])]. *)
Definition run_tool (r : ToolRequest) : exn + string :=
  match int_args r with
  | Some (a, b) =>
      if String.eqb (tr_name r) "multiply" then inr (pretty (multiply a b))
      else if String.eqb (tr_name r) "add" then inr (pretty (add a b))
      else tool_fallback E r
  | None => tool_fallback E r
  end.

Fixpoint run_tools (rs : list ToolRequest) : M World (list msg) :=
  match rs with
  | [] => ret []
  | r :: rs' =>
      text <- lift (run_tool r) ;;
      rest <- run_tools rs' ;;
      ret (ToolMessage text (tr_name r) (tr_id r) :: rest)
  end.

Definition tool_node (state : list msg) : M World (list msg) :=
  match last state with
  | Some (AIMessage _ requests) => run_tools requests
  | _ => raise (LibraryError "ValueError")
  end.

(** The answer of [llm_with_tools.invoke] in the state [w]. *)
Definition llm_reply (w : World) (state : list msg) : exn + msg :=
  match llm_invoke E (trace w) state with
  | inl e => inl e
  | inr (text, requests) => inr (AIMessage text requests)
  end.

(** The world after the model has been invoked on [state]. *)
Definition invoked (w : World) (state : list msg) : World :=
  {| trace := trace w ++ [EvInvoke state (llm_reply w state)] |}.

(** [tool_calling_llm], line 30. *)
Definition tool_calling_llm (state : list msg) : M World (list msg) :=
  fun w => bind (lift (llm_reply w state)) (fun m => ret [m]) (invoked w state).

(** Lines 34-46. *)
Definition builder : StateGraph :=
  add_edge "tools" END
    (add_conditional_edges "tool_calling_llm" tools_condition
      (add_edge START "tool_calling_llm"
        (add_node "tools" tool_node
          (add_node "tool_calling_llm" tool_calling_llm empty_graph)))).

(** [graph = builder.compile()] *)
Definition graph : StateGraph := builder.

(** How often a run called the model. *)
Definition invocations (t : list event) : nat := List.length t.

End Script.

End router.

(** * Sample environments

    Concrete outsides for the runs that the theorems below are instantiated
    at.  The JSON codec is given on the few texts and values these runs meet,
    where it agrees with Python's [json] module. *)

Module samples.

Import me_with_tools.

(** The double-quote character. *)
Definition dq : string := String "034"%char EmptyString.

(** [{"question": "What is your shoe size?"}] *)
Definition args_question : string :=
  "{" +:+ dq +:+ "question" +:+ dq +:+ ": " +:+ dq
  +:+ "What is your shoe size?" +:+ dq +:+ "}".

Definition sample_loads (s : string) : exn + pyval :=
  if String.eqb s "{}" then inr (PDict [])
  else if String.eqb s args_question
       then inr (PDict [("question", PStr "What is your shoe size?")])
       else inl (LibraryError "JSONDecodeError").

Definition sample_dumps (v : pyval) : exn + string :=
  match v with
  | PDict [] => inr "{}"
  | PDict [("recorded", PStr "ok")] =>
      inr ("{" +:+ dq +:+ "recorded" +:+ dq +:+ ": " +:+ dq +:+ "ok" +:+ dq +:+ "}")
  | PNone => inr "null"
  | _ => inl TypeError
  end.

(** How many chat completions a trace has asked for. *)
Definition count_creates (t : list event) : nat :=
  List.length
    (List.filter (fun ev => match ev with EvCreate _ _ => true | _ => false end) t).

(** A completion that requests one tool call, and one that answers. *)
Definition ask (name args : string) : ChatCompletion :=
  {| choices :=
       [{| finish_reason := "tool_calls";
           message :=
             {| content := None;
                tool_calls :=
                  Some [{| tc_id := "call_1"; tc_name := name;
                           tc_arguments := args |}] |} |}] |}.

Definition answer (s : string) : ChatCompletion :=
  {| choices :=
       [{| finish_reason := "stop";
           message := {| content := Some s; tool_calls := None |} |}] |}.

(** An outside whose files load, whose webhook accepts every POST, and whose
    model gives [reply n] as its [n]-th completion. *)
Definition sample_env (reply : nat -> ChatCompletion) : Env := {|
  getenv := fun k =>
    if String.eqb k "PUSHOVER_URL"
    then Some "https://push.example/1/messages.json" else Some "secret";
  dunder_file := "/app/me_with_tools.py";
  OpenAI_new := fun _ => inr tt;
  PdfReader_open := fun _ _ => inr 2;
  extract_text := fun _ _ page =>
    inr (if Nat.eqb page 0 then "Engineer. " else "Athens.");
  open_read := fun _ _ => inr "I build things.";
  requests_post := fun _ _ _ => inr tt;
  completions_create := fun t _ => inr (reply (count_creates t));
  json_loads := sample_loads;
  json_dumps := sample_dumps;
  py_str := fun _ => "<object>";
  foreign_call := fun _ _ => inl TypeError
|}.

(** The model asks once for [record_unknown_question], then answers. *)
Definition one_tool_then_answer (n : nat) : ChatCompletion :=
  match n with
  | O => ask "record_unknown_question" args_question
  | _ => answer "Hello"
  end.

(** The model asks for a tool in every completion. *)
Definition always_asks (n : nat) : ChatCompletion :=
  ask "record_unknown_question" args_question.

(** The same outside with a webhook that refuses the connection. *)
Definition offline_env : Env := {|
  getenv := getenv (sample_env one_tool_then_answer);
  dunder_file := "/app/me_with_tools.py";
  OpenAI_new := fun _ => inr tt;
  PdfReader_open := fun _ _ => inl (LibraryError "FileNotFoundError");
  extract_text := fun _ _ _ => inr "";
  open_read := fun _ _ => inr "";
  requests_post := fun _ _ _ => inl (LibraryError "ConnectionError");
  completions_create := fun t _ => inr (answer "Hello");
  json_loads := sample_loads;
  json_dumps := sample_dumps;
  py_str := fun _ => "<object>";
  foreign_call := fun _ _ => inl TypeError
|}.

Definition world0 : World := {| trace := []; heap := ∅ |}.

(** A world with a [Me] instance at address 0 and an empty history list at
    address 1. *)
Definition profile : gmap string pyval :=
  <["summary" := PStr "I build things."]>
    (<["bio" := PStr "Engineer. Athens."]>
      (<["name" := PStr "Ypatios Chaniotakos"]>
        (<["openai" := PForeign "OpenAI()"]> ∅))).

Definition world1 : World :=
  {| trace := []; heap := <[1 := OList []]> (<[0 := OInstance profile]> ∅) |}.

(** The chat run on [world1] in which the model asks for one tool and then
    answers. *)
Definition sample_chat : outcome pyval * World :=
  Me_chat (sample_env one_tool_then_answer) 0 5 0
    (PStr "What is your shoe size?") 1 world1.

(** The router's model: it asks for [multiply(2, 3)] whatever it is shown. *)
Definition product_request : router.ToolRequest :=
  {| router.tr_name := "multiply";
     router.tr_args := [("a", PInt 2); ("b", PInt 3)];
     router.tr_id := "call_1" |}.

Definition router_env : router.Env := {|
  router.llm_invoke := fun _ _ => inr ("", [product_request]);
  router.tool_fallback := fun _ => inl (LibraryError "ToolException")
|}.

Definition router_world0 : router.World := {| router.trace := [] |}.

End samples.

(** * Further sample environments *)

Module more_samples.

Import me_with_tools.

(** [{"email": "ada@example.org"}] *)
Definition args_email : string :=
  "{" +:+ samples.dq +:+ "email" +:+ samples.dq +:+ ": " +:+ samples.dq
  +:+ "ada@example.org" +:+ samples.dq +:+ "}".

(** [{"message": "hello"}] *)
Definition args_message : string :=
  "{" +:+ samples.dq +:+ "message" +:+ samples.dq +:+ ": " +:+ samples.dq
  +:+ "hello" +:+ samples.dq +:+ "}".

(** [json.loads] on the argument texts of the runs below; the text of one
    opening brace is not JSON. *)
Definition loads (s : string) : exn + pyval :=
  if String.eqb s "{}" then inr (PDict [])
  else if String.eqb s "[1, 2]" then inr (PList [PInt 1; PInt 2])
  else if String.eqb s samples.args_question
       then inr (PDict [("question", PStr "What is your shoe size?")])
  else if String.eqb s args_email
       then inr (PDict [("email", PStr "ada@example.org")])
  else if String.eqb s args_message
       then inr (PDict [("message", PStr "hello")])
  else inl (LibraryError "JSONDecodeError").

(** The outside of [samples.sample_env] with that decoder and a model that
    gives [reply n] as its [n]-th completion. *)
Definition env (reply : nat -> ChatCompletion) : Env := {|
  getenv := getenv (samples.sample_env reply);
  dunder_file := dunder_file (samples.sample_env reply);
  OpenAI_new := OpenAI_new (samples.sample_env reply);
  PdfReader_open := PdfReader_open (samples.sample_env reply);
  extract_text := extract_text (samples.sample_env reply);
  open_read := open_read (samples.sample_env reply);
  requests_post := requests_post (samples.sample_env reply);
  completions_create := completions_create (samples.sample_env reply);
  json_loads := loads;
  json_dumps := json_dumps (samples.sample_env reply);
  py_str := py_str (samples.sample_env reply);
  foreign_call := foreign_call (samples.sample_env reply)
|}.

(** The same outside with a chat endpoint that refuses every request. *)
Definition refusing_env : Env := {|
  getenv := getenv (env samples.one_tool_then_answer);
  dunder_file := dunder_file (env samples.one_tool_then_answer);
  OpenAI_new := OpenAI_new (env samples.one_tool_then_answer);
  PdfReader_open := PdfReader_open (env samples.one_tool_then_answer);
  extract_text := extract_text (env samples.one_tool_then_answer);
  open_read := open_read (env samples.one_tool_then_answer);
  requests_post := requests_post (env samples.one_tool_then_answer);
  completions_create := fun _ _ => inl (LibraryError "RateLimitError");
  json_loads := loads;
  json_dumps := json_dumps (env samples.one_tool_then_answer);
  py_str := py_str (env samples.one_tool_then_answer);
  foreign_call := foreign_call (env samples.one_tool_then_answer)
|}.

Definition call (name args : string) : ToolCall :=
  {| tc_id := "call_1"; tc_name := name; tc_arguments := args |}.

(** A model reply of the router with two requests. *)
Definition two_requests : list router.ToolRequest :=
  [{| router.tr_name := "multiply";
      router.tr_args := [("a", PInt 2); ("b", PInt 3)];
      router.tr_id := "call_1" |};
   {| router.tr_name := "add";
      router.tr_args := [("a", PInt 40); ("b", PInt 2)];
      router.tr_id := "call_2" |}].

Definition router_env : router.Env := {|
  router.llm_invoke := fun _ _ => inr ("", two_requests);
  router.tool_fallback := fun _ => inl (LibraryError "ToolException")
|}.

End more_samples.

(** * Vocabulary of the specifications *)

Import me_with_tools.

(** [s] occurs in [t]. *)
Definition substring (s t : string) : Prop :=
  exists pre post, t = pre +:+ s +:+ post.

(** [m] keeps [I]: whatever its outcome, the world it leaves satisfies [I]
    when the world it started in did. *)
Definition preserves {A} (I : World -> Prop) (m : M World A) : Prop :=
  forall w, I w -> I (m w).2.

(** The events the script can produce: a chat completion is always asked for
    with the model name and the tool list of line 144. *)
Definition script_event (ev : event) : Prop :=
  match ev with
  | EvCreate req _ => rq_model req = "gpt-4o-mini" /\ rq_tools req = tools
  | _ => True
  end.

(** [I] is an invariant that tolerates the updates [U l old new] of heap
    cells: it survives every event of the script, every allocation, and
    every tolerated update; and it tolerates any update of a cell that is
    not allocated yet. *)
Record invariant (I : World -> Prop) (U : nat -> obj -> obj -> Prop) : Prop := {
  inv_event : forall w ev,
    script_event ev -> I w -> I (with_trace w (trace w ++ [ev]));
  inv_alloc : forall w o,
    I w -> I (with_heap w (<[fresh (dom (heap w)) := o]> (heap w)));
  inv_update : forall w l o o',
    heap w !! l = Some o -> U l o o' -> I w -> I (with_heap w (<[l := o']> (heap w)));
  inv_fresh : forall w o o', I w -> U (fresh (dom (heap w))) o o'
}.

(** The cell at [l] holds an object with property [P]. *)
Definition holds_at (l : nat) (P : obj -> Prop) (w : World) : Prop :=
  exists o, heap w !! l = Some o /\ P o.

(** The trace extends [t0] by events with property [Q]. *)
Definition extends_trace (t0 : list event) (Q : event -> Prop) (w : World) : Prop :=
  exists evs, trace w = t0 ++ evs /\ Forall Q evs.

(** The text that the [extract_text] calls of a trace returned, in order. *)
Fixpoint extracted_text (evs : list event) : string :=
  match evs with
  | [] => ""
  | EvExtractText _ _ (inr text) :: evs' => text +:+ extracted_text evs'
  | _ :: evs' => extracted_text evs'
  end.

(** What a tool description declares: the function's name, its required
    parameters, its other declared parameters, and whether further
    properties are admitted. *)
Record FunctionSchema : Type := {
  fs_name : string;
  fs_required : list string;
  fs_optional : list string;
  fs_additional : bool
}.

(** The strings of a list that holds only strings. *)
Fixpoint strings_of (vs : list pyval) : option (list string) :=
  match vs with
  | [] => Some []
  | PStr s :: vs' =>
      match strings_of vs' with
      | Some ss => Some (s :: ss)
      | None => None
      end
  | _ :: _ => None
  end.

(** Reads one entry of the [tools] list. *)
Definition function_schema (tool : pyval) : option FunctionSchema :=
  match tool with
  | PDict d =>
      match dict_get "type" d, dict_get "function" d with
      | Some (PStr kind), Some (PDict f) =>
          match dict_get "name" f, dict_get "parameters" f with
          | Some (PStr name), Some (PDict ps) =>
              match dict_get "properties" ps, dict_get "required" ps,
                    dict_get "additionalProperties" ps with
              | Some (PDict props), Some (PList req), Some (PBool extra) =>
                  match strings_of req with
                  | Some required =>
                      if String.eqb kind "function"
                      then Some {| fs_name := name;
                                   fs_required := required;
                                   fs_optional :=
                                     List.filter
                                       (fun k => negb (mem_string k required))
                                       (dict_keys props);
                                   fs_additional := extra |}
                      else None
                  | None => None
                  end
              | _, _, _ => None
              end
          | _, _ => None
          end
      | _, _ => None
      end
  | _ => None
  end.

(** What each entry of a tool list declares. *)
Definition tool_schemas (ts : pyval) : list (option FunctionSchema) :=
  match ts with
  | PList l => map function_schema l
  | _ => []
  end.

(** The exception of an answer that is one. *)
Definition failed {A} (r : exn + A) : option exn :=
  match r with
  | inl e => Some e
  | inr _ => None
  end.

(** The exception that the library raised in an event, if it did. *)
Definition failure (ev : event) : option exn :=
  match ev with
  | EvPrint _ => None
  | EvPost _ _ r => failed r
  | EvCreate _ r => failed r
  | EvOpenAI r => failed r
  | EvPdfReader _ r => failed r
  | EvExtractText _ _ r => failed r
  | EvRead _ r => failed r
  end.

(** No library call of [evs] raised. *)
Definition quiet (evs : list event) : Prop :=
  Forall (fun ev => failure ev = None) evs.

(** The events of a computation without handlers: no library call failed, or
    the one that failed is the last event and its exception is the
    outcome. *)
Definition propagated {A} (evs : list event) (o : outcome A) : Prop :=
  quiet evs
  \/ exists pre ev e,
       evs = pre ++ [ev] /\ quiet pre /\ failure ev = Some e /\ o = Raise e.

(** [m] handles no failure of the outside: from every world, the events it
    adds to the trace are [propagated] to its outcome. *)
Definition uncaught {A} (m : M World A) : Prop :=
  forall w, exists evs, trace (m w).2 = trace w ++ evs /\ propagated evs (m w).1.

(** A computation that uses no [while] loop never runs out of fuel. *)
Definition finishes {A} (m : M World A) : Prop :=
  forall w, (m w).1 <> OutOfFuel.

(** The world in which the tool of [tool_call] runs: its name has been
    printed. *)
Definition announced (w : World) (tool_call : ToolCall) : World :=
  with_trace w (trace w ++ [EvPrint ("Tool called: " +:+ tc_name tool_call)]).

(** [handled w calls entries w']: handling [calls] in order from [w] succeeds
    call by call, yields [entries] and ends in [w']. *)
Inductive handled (E : Env) (me : nat)
    : World -> list ToolCall -> list pyval -> World -> Prop :=
| handled_nil w : handled E me w [] [] w
| handled_cons w tool_call calls arguments result w1 text entries w2 :
    json_loads E (tc_arguments tool_call) = inr arguments ->
    dispatch E me tool_call arguments (announced w tool_call) = (Ok result, w1) ->
    json_dumps E result = inr text ->
    handled E me w1 calls entries w2 ->
    handled E me w (tool_call :: calls) (tool_message text tool_call :: entries) w2.

(** ** Further vocabulary *)

(** The events that handling a tool call can produce: all but a request for
    a chat completion. *)
Definition tool_event (ev : event) : Prop :=
  match ev with
  | EvCreate _ _ => False
  | _ => True
  end.

Definition is_post (ev : event) : bool :=
  match ev with
  | EvPost _ _ _ => true
  | _ => false
  end.

(** How many notification POSTs a list of events holds. *)
Definition count_posts (evs : list event) : nat :=
  List.length (List.filter is_post evs).

(** [m] adds to the trace only tool events, at most [n] POSTs among them. *)
Definition emits_posts {A} (n : nat) (m : M World A) : Prop :=
  forall w, exists evs,
    trace (m w).2 = trace w ++ evs
    /\ Forall tool_event evs
    /\ count_posts evs <= n.

(** The message lists of the chat completion requests of a trace, in
    order. *)
Fixpoint requests_of (evs : list event) : list (list pyval) :=
  match evs with
  | [] => []
  | EvCreate req _ :: evs' => rq_messages req :: requests_of evs'
  | _ :: evs' => requests_of evs'
  end.

(** Each list of [reqs] extends the one before it, the first one [ms]. *)
Fixpoint extending (ms : list pyval) (reqs : list (list pyval)) : Prop :=
  match reqs with
  | [] => True
  | r :: rest => ms `prefix_of` r /\ extending r rest
  end.

(** The first list of [reqs] is [ms], and each later one extends the one
    before it. *)
Definition starting_with (ms : list pyval) (reqs : list (list pyval)) : Prop :=
  match reqs with
  | [] => True
  | r :: rest => r = ms /\ extending r rest
  end.

(** The events of extracting [texts] from the pages [page], [page + 1],
    ... of a PDF. *)
Fixpoint extract_events (pdf_path : string) (page : nat) (texts : list string)
    : list event :=
  match texts with
  | [] => []
  | text :: texts' =>
      EvExtractText pdf_path page (inr text)
      :: extract_events pdf_path (S page) texts'
  end.

Definition concat_texts (texts : list string) : string :=
  fold_right String.append "" texts.

(** The first three messages of a chat: the system prompt, the history and
    the user's message. *)
Definition first_messages (prompt : string) (hist : list pyval) (question : pyval)
    : list pyval :=
  [PDict [("role", PStr "system"); ("content", PStr prompt)]]
  ++ hist
  ++ [PDict [("role", PStr "user"); ("content", question)]].

(** What the tool node answers to the request [r]. *)
Definition answers E (r : router.ToolRequest) (m : router.msg) : Prop :=
  exists text,
    router.run_tool E r = inr text
    /\ m = router.ToolMessage text (router.tr_name r) (router.tr_id r).



(** [tool_rounds E me messages w msgs n w' msgs' final]: from the world [w],
    where the list at [messages] holds [msgs], the model is asked [n + 1]
    times.  The first [n] completions ask for tool calls; each time the
    calls are executed in order, the model's message and then the entries of
    the calls are appended to the list, and the model is asked again with
    the list so extended.  The last completion, [final], asked with
    [msgs'], does not ask for tool calls; [w'] is the world in which it has
    arrived. *)
Inductive tool_rounds (E : Env) (me messages : nat)
    : World -> list pyval -> nat -> World -> list pyval -> ChatCompletion -> Prop :=
| rounds_answer w msgs final choice rest :
    completions_create E (trace w) (chat_request msgs) = inr final ->
    choices final = choice :: rest ->
    finish_reason choice <> "tool_calls" ->
    tool_rounds E me messages w msgs 0 (arrived w msgs (inr final)) msgs final
| rounds_tools w msgs resp choice rest calls entries w2 n w' msgs' final :
    completions_create E (trace w) (chat_request msgs) = inr resp ->
    choices resp = choice :: rest ->
    finish_reason choice = "tool_calls" ->
    tool_calls (message choice) = Some calls ->
    handled E me (arrived w msgs (inr resp)) calls entries w2 ->
    tool_rounds E me messages
      (with_heap w2
         (<[messages := OList (msgs ++ PMessage (message choice) :: entries)]>
            (heap w2)))
      (msgs ++ PMessage (message choice) :: entries) n w' msgs' final ->
    tool_rounds E me messages w msgs (S n) w' msgs' final.

(** * Properties of me_with_tools.py *)

(** ** The monad *)

Lemma bind_Ok {W A B} (m : M W A) (k : A -> M W B) w a w1 :
  m w = (Ok a, w1) -> bind m k w = k a w1.
Proof. intros H. unfold bind. by rewrite H. Qed.

Lemma bind_Raise {W A B} (m : M W A) (k : A -> M W B) w e w1 :
  m w = (Raise e, w1) -> bind m k w = (Raise e, w1).
Proof. intros H. unfold bind. by rewrite H. Qed.

Lemma bind_OutOfFuel {W A B} (m : M W A) (k : A -> M W B) w w1 :
  m w = (OutOfFuel, w1) -> bind m k w = (OutOfFuel, w1).
Proof. intros H. unfold bind. by rewrite H. Qed.

Lemma bind_fst_OutOfFuel {W A B} (m : M W A) (k : A -> M W B) w :
  (m w).1 = OutOfFuel -> (bind m k w).1 = OutOfFuel.
Proof. unfold bind. by destruct (m w) as [[a | e |] w1]. Qed.

Lemma bind_Ok_inv {W A B} (m : M W A) (k : A -> M W B) w b w2 :
  bind m k w = (Ok b, w2) ->
  exists a w1, m w = (Ok a, w1) /\ k a w1 = (Ok b, w2).
Proof.
  unfold bind. destruct (m w) as [[a | e |] w1]; intros H; try discriminate.
  by exists a, w1.
Qed.

(** Reading leaves the world as it is. *)
Lemma getattr_world (self : nat) (a : string) (w : World) :
  (getattr self a w).2 = w.
Proof.
  unfold getattr. destruct (heap w !! self) as [[xs | attrs] |]; [done | | done].
  by destruct (attrs !! a).
Qed.

Lemma read_list_world (l : nat) (w : World) : (read_list l w).2 = w.
Proof.
  unfold read_list. by destruct (heap w !! l) as [[xs | attrs] |].
Qed.

Lemma system_prompt_world E (self : nat) (w : World) :
  (Me_system_prompt E self w).2 = w.
Proof.
  unfold Me_system_prompt, bind.
  pose proof (getattr_world self "name" w) as H1.
  destruct (getattr self "name" w) as [[name | e |] w1]; cbn in H1; subst; try done.
  pose proof (getattr_world self "summary" w) as H2.
  destruct (getattr self "summary" w) as [[summary | e |] w1]; cbn in H2; subst; try done.
  pose proof (getattr_world self "bio" w) as H3.
  by destruct (getattr self "bio" w) as [[bio | e |] w1]; cbn in H3; subst.
Qed.

(** What the primitives have done when they return. *)
Lemma external_Ok_inv {A} (ask : list event -> exn + A) (ev : exn + A -> event)
    (w : World) (a : A) (w' : World) :
  external ask ev w = (Ok a, w') ->
  ask (trace w) = inr a /\ w' = with_trace w (trace w ++ [ev (inr a)]).
Proof.
  unfold external. destruct (ask (trace w)) as [e | a']; cbn; [discriminate |].
  intros H. by injection H as -> <-.
Qed.

Lemma setattr_Ok_inv (self : nat) (a : string) (v : pyval) (w w' : World) (u : unit) :
  setattr self a v w = (Ok u, w') ->
  exists attrs,
    heap w !! self = Some (OInstance attrs)
    /\ w' = with_heap w (<[self := OInstance (<[a := v]> attrs)]> (heap w)).
Proof.
  unfold setattr. destruct (heap w !! self) as [[xs | attrs] |]; try discriminate.
  intros H. injection H as _ <-. by exists attrs.
Qed.

Lemma getattr_Ok_inv (self : nat) (a : string) (w w' : World) (v : pyval) :
  getattr self a w = (Ok v, w') ->
  exists attrs,
    heap w !! self = Some (OInstance attrs) /\ attrs !! a = Some v /\ w' = w.
Proof.
  unfold getattr. destruct (heap w !! self) as [[xs | attrs] |]; try discriminate.
  destruct (attrs !! a) as [v' |] eqn:Ha; [| discriminate].
  intros H. injection H as <- <-. by exists attrs.
Qed.

(** ** Substrings *)

Lemma append_assoc (s1 s2 s3 : string) :
  (s1 +:+ s2) +:+ s3 = s1 +:+ s2 +:+ s3.
Proof.
  induction s1 as [| c s1 IH]; [done |].
  change (String c ((s1 +:+ s2) +:+ s3) = String c (s1 +:+ s2 +:+ s3)).
  by rewrite IH.
Qed.

Lemma append_empty_r (s : string) : s +:+ "" = s.
Proof.
  induction s as [| c s IH]; [done |].
  change (String c (s +:+ "") = String c s). by rewrite IH.
Qed.

Lemma substring_refl (s : string) : substring s s.
Proof. exists "", "". by rewrite append_empty_r. Qed.

Lemma substring_app_l (s t u : string) : substring s t -> substring s (t +:+ u).
Proof.
  intros (pre & post & ->). exists pre, (post +:+ u).
  by rewrite !append_assoc.
Qed.

Lemma substring_app_r (s t u : string) : substring s t -> substring s (u +:+ t).
Proof.
  intros (pre & post & ->). exists (u +:+ pre), post.
  by rewrite !append_assoc.
Qed.

Ltac find_substring :=
  first [ apply substring_refl
        | apply substring_app_l; find_substring
        | apply substring_app_r; find_substring ].

(** ** The system prompt *)

Lemma prompt_text_embeds E (name summary bio : string) :
  substring name (prompt_text E (PStr name) (PStr summary) (PStr bio))
  /\ substring summary (prompt_text E (PStr name) (PStr summary) (PStr bio))
  /\ substring bio (prompt_text E (PStr name) (PStr summary) (PStr bio)).
Proof.
  unfold prompt_text, fmt. repeat split; find_substring.
Qed.

(** C4.  For an instance whose name, summary and bio are strings,
    [system_prompt] returns, without touching the world, a string that holds
    each of the three as a substring. *)
Theorem system_prompt_embeds_profile E (self : nat) (w : World)
    (attrs : gmap string pyval) (name summary bio : string) :
  heap w !! self = Some (OInstance attrs) ->
  attrs !! "name" = Some (PStr name) ->
  attrs !! "summary" = Some (PStr summary) ->
  attrs !! "bio" = Some (PStr bio) ->
  exists prompt,
    Me_system_prompt E self w = (Ok prompt, w)
    /\ substring name prompt
    /\ substring summary prompt
    /\ substring bio prompt.
Proof.
  intros Hself Hname Hsummary Hbio.
  exists (prompt_text E (PStr name) (PStr summary) (PStr bio)).
  split; [| apply prompt_text_embeds].
  unfold Me_system_prompt, bind, getattr, ret.
  rewrite Hself, Hname. cbn. rewrite Hself, Hsummary. cbn.
  by rewrite Hself, Hbio.
Qed.

Lemma system_prompt_embeds_profile_witness :
  exists prompt,
    Me_system_prompt (samples.sample_env samples.one_tool_then_answer) 0
      samples.world1 = (Ok prompt, samples.world1)
    /\ substring "Ypatios Chaniotakos" prompt
    /\ substring "I build things." prompt
    /\ substring "Engineer. Athens." prompt.
Proof.
  apply (system_prompt_embeds_profile _ 0 samples.world1 samples.profile);
    reflexivity.
Defined.

(** ** Invariants of the world *)

Lemma fresh_not_allocated (h : gmap nat obj) : h !! fresh (dom h) = None.
Proof. apply not_elem_of_dom, is_fresh. Qed.

Lemma holds_at_invariant (l : nat) (P : obj -> Prop) :
  invariant (holds_at l P) (fun l' o o' => l' = l -> P o -> P o').
Proof.
  split.
  - intros w ev _ H. exact H.
  - intros w o (o0 & Hl & HP). exists o0. split; [| done]. cbn.
    rewrite lookup_insert_ne; [done |].
    intros Heq. rewrite <- Heq, fresh_not_allocated in Hl. discriminate.
  - intros w l' o o' Hl' HU (o0 & Hl & HP). unfold holds_at. cbn.
    destruct (decide (l' = l)) as [-> | Hne].
    + exists o'. rewrite lookup_insert_eq. split; [done |].
      apply HU; [done |]. congruence.
    + exists o0. by rewrite lookup_insert_ne.
  - intros w o o' (o0 & Hl & _) Heq.
    rewrite <- Heq, fresh_not_allocated in Hl. discriminate.
Qed.

Lemma extends_trace_invariant (t0 : list event) (Q : event -> Prop) :
  (forall ev, script_event ev -> Q ev) ->
  invariant (extends_trace t0 Q) (fun _ _ _ => True).
Proof.
  intros HQ. split; try done.
  intros w ev Hev (evs & Ht & Hall). exists (evs ++ [ev]). cbn. split.
  - by rewrite Ht, <- app_assoc.
  - apply Forall_app. split; [done |]. constructor; [by apply HQ | constructor].
Qed.

Section Preservation.

Variable E : Env.
Variable me : nat.
Variable I : World -> Prop.
Variable U : nat -> obj -> obj -> Prop.
Hypothesis HI : invariant I U.

Lemma preserves_ret {A} (a : A) : preserves I (ret a).
Proof. by intros w H. Qed.

Lemma preserves_raise {A} (e : exn) : preserves I (@raise World A e).
Proof. by intros w H. Qed.

Lemma preserves_out_of_fuel {A} : preserves I (@out_of_fuel World A).
Proof. by intros w H. Qed.

Lemma preserves_lift {A} (r : exn + A) : preserves I (lift r).
Proof. destruct r; [apply preserves_raise | apply preserves_ret]. Qed.

Lemma preserves_bind {A B} (m : M World A) (k : A -> M World B) :
  preserves I m -> (forall a, preserves I (k a)) -> preserves I (bind m k).
Proof.
  intros Hm Hk w Hw. specialize (Hm w Hw). unfold bind.
  destruct (m w) as [[a | e |] w1]; cbn in *; [by apply Hk | done | done].
Qed.

Lemma preserves_for_each {A} (xs : list A) (body : A -> M World unit) :
  (forall x, preserves I (body x)) -> preserves I (for_each xs body).
Proof.
  intros Hbody. induction xs as [| x xs IH]; cbn.
  - apply preserves_ret.
  - apply preserves_bind; [apply Hbody | intros _; apply IH].
Qed.

Lemma preserves_while_loop {S} (fuel : nat) (cond : S -> bool)
    (body : S -> M World S) (s : S) :
  (forall s, preserves I (body s)) -> preserves I (while_loop fuel cond body s).
Proof.
  intros Hbody. revert s. induction fuel as [| fuel IH]; intros s; cbn.
  - destruct (cond s); [apply preserves_out_of_fuel | apply preserves_ret].
  - destruct (cond s); [| apply preserves_ret].
    apply preserves_bind; [apply Hbody | apply IH].
Qed.

Lemma preserves_print (line : string) : preserves I (print line).
Proof. intros w Hw. cbn. by apply (inv_event _ _ HI). Qed.

Lemma preserves_external {A} (ask : list event -> exn + A) (ev : exn + A -> event) :
  (forall r, script_event (ev r)) -> preserves I (external ask ev).
Proof.
  intros Hev w Hw. unfold external.
  destruct (ask (trace w)) as [e | a] eqn:Hr; cbn;
    by apply (inv_event _ _ HI).
Qed.

Lemma preserves_alloc (o : obj) : preserves I (alloc o).
Proof. intros w Hw. cbn. by apply (inv_alloc _ _ HI). Qed.

Lemma preserves_read_list (l : nat) : preserves I (read_list l).
Proof.
  intros w Hw. unfold read_list.
  by destruct (heap w !! l) as [[xs | attrs] |].
Qed.

Lemma preserves_getattr (self : nat) (a : string) : preserves I (getattr self a).
Proof.
  intros w Hw. unfold getattr.
  destruct (heap w !! self) as [[xs | attrs] |]; [done | | done].
  by destruct (attrs !! a).
Qed.

Lemma preserves_index0 {A} (xs : list A) : preserves I (index0 xs).
Proof. destruct xs; [apply preserves_raise | apply preserves_ret]. Qed.

Lemma preserves_setattr (self : nat) (a : string) (v : pyval) :
  (forall o o', U self o o') -> preserves I (setattr self a v).
Proof.
  intros HU w Hw. unfold setattr.
  destruct (heap w !! self) as [[xs | attrs] |] eqn:Hself; [done | | done].
  cbn. by apply (inv_update _ _ HI) with (o := OInstance attrs).
Qed.

Lemma preserves_list_extend (l : nat) (xs : list pyval) :
  (forall ys, U l (OList ys) (OList (ys ++ xs))) -> preserves I (list_extend l xs).
Proof.
  intros HU w Hw. unfold list_extend.
  destruct (heap w !! l) as [[ys | attrs] |] eqn:Hl; [| done | done].
  cbn. by apply (inv_update _ _ HI) with (o := OList ys).
Qed.

Lemma preserves_push (message : pyval) : preserves I (push E message).
Proof.
  unfold push. apply preserves_bind; [apply preserves_print | intros _].
  apply preserves_bind; [by apply preserves_external | intros _].
  apply preserves_ret.
Qed.

Lemma preserves_call_function (f : func) (kw : list (string * pyval)) :
  preserves I (call_function E f kw).
Proof.
  destruct f; cbn.
  - destruct (kwargs_fit _ _ kw); [apply preserves_push | apply preserves_raise].
  - destruct (kwargs_fit _ _ kw); [| apply preserves_raise].
    apply preserves_bind; [apply preserves_push | intros _; apply preserves_ret].
  - destruct (kwargs_fit _ _ kw); [| apply preserves_raise].
    apply preserves_bind; [apply preserves_push | intros _; apply preserves_ret].
Qed.

Lemma preserves_Me_init (self : nat) :
  (forall o o', U self o o') -> preserves I (Me_init E self).
Proof.
  intros HU. unfold Me_init.
  apply preserves_bind; [by apply preserves_external | intros _].
  apply preserves_bind; [by apply preserves_setattr | intros _].
  apply preserves_bind; [by apply preserves_setattr | intros _].
  apply preserves_bind; [by apply preserves_external | intros npages].
  apply preserves_bind; [by apply preserves_setattr | intros _].
  apply preserves_bind.
  - apply preserves_for_each. intros page.
    apply preserves_bind; [by apply preserves_external | intros text].
    destruct (truthy (PStr text)); [| apply preserves_ret].
    apply preserves_bind; [apply preserves_getattr | intros bio].
    destruct bio; try apply preserves_raise. by apply preserves_setattr.
  - intros _.
    apply preserves_bind; [by apply preserves_external | intros summary].
    by apply preserves_setattr.
Qed.

Lemma preserves_Me_new : preserves I (Me_new E).
Proof.
  intros w Hw. unfold Me_new.
  assert (Halloc : alloc (OInstance ∅) w
    = (Ok (fresh (dom (heap w))),
       with_heap w (<[fresh (dom (heap w)) := OInstance ∅]> (heap w)))) by done.
  rewrite (bind_Ok _ _ _ _ _ Halloc).
  apply (preserves_bind (Me_init E (fresh (dom (heap w)))) (fun _ => ret _)).
  - apply preserves_Me_init. intros o o'. by apply (inv_fresh _ _ HI).
  - intros _. apply preserves_ret.
  - by apply (inv_alloc _ _ HI).
Qed.

Lemma preserves_call_tool (tool arguments : pyval) :
  preserves I (call_tool E tool arguments).
Proof.
  unfold call_tool. destruct arguments; try apply preserves_raise.
  destruct tool; try apply preserves_raise.
  - apply preserves_call_function.
  - destruct d; [| apply preserves_raise].
    apply preserves_bind; [apply preserves_Me_new | intros self; apply preserves_ret].
  - apply preserves_lift.
Qed.

Lemma preserves_dispatch (tool_call : ToolCall) (arguments : pyval) :
  preserves I (dispatch E me tool_call arguments).
Proof.
  unfold dispatch. destruct (truthy _); [apply preserves_call_tool | apply preserves_ret].
Qed.

Lemma preserves_handle_one (tool_call : ToolCall) :
  preserves I (handle_one E me tool_call).
Proof.
  unfold handle_one.
  apply preserves_bind; [apply preserves_lift | intros arguments].
  apply preserves_bind; [apply preserves_print | intros _].
  apply preserves_bind; [apply preserves_dispatch | intros result].
  apply preserves_bind; [apply preserves_lift | intros text; apply preserves_ret].
Qed.

Lemma preserves_handle_loop (calls : list ToolCall) (results : list pyval) :
  preserves I (handle_loop E me calls results).
Proof.
  revert results. induction calls as [| c calls IH]; intros results; cbn.
  - apply preserves_ret.
  - apply preserves_bind; [apply preserves_handle_one | intros entry; apply IH].
Qed.

Lemma preserves_handle_tool_call (self : nat) (calls : option (list ToolCall)) :
  preserves I (Me_handle_tool_call E me self calls).
Proof.
  destruct calls; [apply preserves_handle_loop | apply preserves_raise].
Qed.

Lemma preserves_system_prompt (self : nat) : preserves I (Me_system_prompt E self).
Proof.
  unfold Me_system_prompt.
  apply preserves_bind; [apply preserves_getattr | intros name].
  apply preserves_bind; [apply preserves_getattr | intros summary].
  apply preserves_bind; [apply preserves_getattr | intros bio].
  apply preserves_ret.
Qed.

Lemma preserves_chat_body (self messages : nat) (st : ChatLoop) :
  (forall ys xs, U messages (OList ys) (OList (ys ++ xs))) ->
  preserves I (chat_body E me self messages st).
Proof.
  intros HU. unfold chat_body.
  apply preserves_bind; [apply preserves_getattr | intros client].
  apply preserves_bind; [apply preserves_read_list | intros msgs].
  apply preserves_bind; [by apply preserves_external | intros resp].
  apply preserves_bind; [apply preserves_index0 | intros choice].
  destruct (String.eqb _ _); [| apply preserves_ret].
  apply preserves_bind; [apply preserves_handle_tool_call | intros results].
  apply preserves_bind; [by apply preserves_list_extend | intros _].
  apply preserves_bind; [by apply preserves_list_extend | intros _].
  apply preserves_ret.
Qed.

Lemma preserves_chat_return (st : ChatLoop) : preserves I (chat_return st).
Proof.
  unfold chat_return. destruct (response st); [| apply preserves_ret].
  apply preserves_bind; [apply preserves_index0 | intros choice; apply preserves_ret].
Qed.

Lemma preserves_chat (fuel self : nat) (message : pyval) (history : nat) :
  preserves I (Me_chat E me fuel self message history).
Proof.
  unfold Me_chat.
  apply preserves_bind; [apply preserves_system_prompt | intros prompt].
  apply preserves_bind; [apply preserves_read_list | intros hist].
  intros w Hw.
  set (ms := _ ++ _ ++ _).
  assert (Halloc : alloc (OList ms) w
    = (Ok (fresh (dom (heap w))),
       with_heap w (<[fresh (dom (heap w)) := OList ms]> (heap w)))) by done.
  rewrite (bind_Ok _ _ _ _ _ Halloc).
  apply (preserves_bind (chat_loop E me self _ fuel _) chat_return).
  - apply preserves_while_loop. intros st. apply preserves_chat_body.
    intros ys xs. by apply (inv_fresh _ _ HI).
  - apply preserves_chat_return.
  - by apply (inv_alloc _ _ HI).
Qed.

End Preservation.

(** ** One iteration of the loop of [chat] *)

Section ChatLoop.

Variable E : Env.
Variable me : nat.
Variable self : nat.
Variable messages : nat.

Lemma handle_tool_call_keeps_cell (calls : option (list ToolCall)) (l : nat)
    (o : obj) (w : World) :
  heap w !! l = Some o ->
  heap (Me_handle_tool_call E me self calls w).2 !! l = Some o.
Proof.
  intros Hl.
  pose proof (preserves_handle_tool_call E me _ _
                (holds_at_invariant l (fun o' => o' = o)) self calls w) as H.
  destruct H as (o' & Ho' & ->); [by exists o | done].
Qed.

(** One iteration, case by case. *)
Lemma chat_body_cases (st : ChatLoop) (w : World) :
  chat_body E me self messages st w
  = match (getattr self "openai" w).1 with
    | Ok _ =>
        match heap w !! messages with
        | Some (OList msgs) =>
            match completions_create E (trace w) (chat_request msgs) with
            | inl e => (Raise e, arrived w msgs (inl e))
            | inr resp =>
                match choices resp with
                | [] => (Raise IndexError, arrived w msgs (inr resp))
                | choice :: _ =>
                    if String.eqb (finish_reason choice) "tool_calls"
                    then
                      match Me_handle_tool_call E me self (tool_calls (message choice))
                              (arrived w msgs (inr resp)) with
                      | (Ok results, w2) =>
                          (Ok {| done := done st; response := Some resp |},
                           with_heap w2
                             (<[messages :=
                                  OList (msgs ++ PMessage (message choice) :: results)]>
                                (heap w2)))
                      | (Raise e, w2) => (Raise e, w2)
                      | (OutOfFuel, w2) => (OutOfFuel, w2)
                      end
                    else (Ok {| done := true; response := Some resp |},
                          arrived w msgs (inr resp))
                end
            end
        | _ => (Raise TypeError, w)
        end
    | Raise e => (Raise e, w)
    | OutOfFuel => (OutOfFuel, w)
    end.
Proof.
  unfold chat_body. unfold bind at 1.
  pose proof (getattr_world self "openai" w) as Hw.
  destruct (getattr self "openai" w) as [[client | e |] w0]; cbn in Hw; subst w0;
    cbn [fst]; try done.
  unfold bind at 1, read_list.
  destruct (heap w !! messages) as [[msgs | attrs] |] eqn:Hm; try done.
  unfold bind at 1, external.
  destruct (completions_create E (trace w) (chat_request msgs)) as [e | resp];
    cbn [lift raise ret]; [done |].
  fold (arrived w msgs (inr resp)).
  destruct (choices resp) as [| choice rest]; cbn [index0 raise ret bind]; [done |].
  destruct (String.eqb (finish_reason choice) "tool_calls"); [| done].
  unfold bind at 1.
  pose proof (handle_tool_call_keeps_cell (tool_calls (message choice))
                messages (OList msgs) (arrived w msgs (inr resp)) Hm) as Hm2.
  destruct (Me_handle_tool_call E me self (tool_calls (message choice))
              (arrived w msgs (inr resp))) as [[results | e |] w2]; try done.
  cbn in Hm2. unfold list_append, list_extend, bind. rewrite Hm2. cbn.
  rewrite lookup_insert_eq, insert_insert_eq. cbn.
  by rewrite <- app_assoc.
Qed.

Lemma chat_body_plain (st : ChatLoop) (w : World) (client : pyval)
    (msgs : list pyval) (resp : ChatCompletion) (choice : Choice)
    (rest : list Choice) :
  getattr self "openai" w = (Ok client, w) ->
  heap w !! messages = Some (OList msgs) ->
  completions_create E (trace w) (chat_request msgs) = inr resp ->
  choices resp = choice :: rest ->
  finish_reason choice <> "tool_calls" ->
  chat_body E me self messages st w
  = (Ok {| done := true; response := Some resp |}, arrived w msgs (inr resp)).
Proof.
  intros Hclient Hm Hcreate Hchoices Hplain.
  apply String.eqb_neq in Hplain.
  by rewrite chat_body_cases, Hclient, Hm, Hcreate, Hchoices, Hplain.
Qed.

Lemma chat_body_tools (st : ChatLoop) (w : World) (client : pyval)
    (msgs : list pyval) (resp : ChatCompletion) (choice : Choice)
    (rest : list Choice) (results : list pyval) (w2 : World) :
  getattr self "openai" w = (Ok client, w) ->
  heap w !! messages = Some (OList msgs) ->
  completions_create E (trace w) (chat_request msgs) = inr resp ->
  choices resp = choice :: rest ->
  finish_reason choice = "tool_calls" ->
  Me_handle_tool_call E me self (tool_calls (message choice))
    (arrived w msgs (inr resp)) = (Ok results, w2) ->
  chat_body E me self messages st w
  = (Ok {| done := done st; response := Some resp |},
     with_heap w2
       (<[messages := OList (msgs ++ PMessage (message choice) :: results)]> (heap w2))).
Proof.
  intros Hclient Hm Hcreate Hchoices Htools Hhandle.
  apply String.eqb_eq in Htools.
  by rewrite chat_body_cases, Hclient, Hm, Hcreate, Hchoices, Htools, Hhandle.
Qed.

(** What a completed iteration has done. *)
Lemma chat_body_Ok_inv (st st' : ChatLoop) (w w' : World) :
  chat_body E me self messages st w = (Ok st', w') ->
  exists client msgs resp choice rest,
    getattr self "openai" w = (Ok client, w)
    /\ heap w !! messages = Some (OList msgs)
    /\ completions_create E (trace w) (chat_request msgs) = inr resp
    /\ choices resp = choice :: rest
    /\ response st' = Some resp
    /\ ((finish_reason choice <> "tool_calls"
         /\ done st' = true
         /\ w' = arrived w msgs (inr resp))
        \/ (finish_reason choice = "tool_calls"
            /\ done st' = done st
            /\ exists results w2,
                 Me_handle_tool_call E me self (tool_calls (message choice))
                   (arrived w msgs (inr resp)) = (Ok results, w2)
                 /\ w' = with_heap w2
                     (<[messages := OList (msgs ++ PMessage (message choice) :: results)]>
                        (heap w2)))).
Proof.
  rewrite chat_body_cases. intros Hbody.
  pose proof (getattr_world self "openai" w) as Hw.
  destruct (getattr self "openai" w) as [[client | e |] w0]; cbn in Hw; subst w0;
    cbn [fst] in Hbody; try discriminate.
  destruct (heap w !! messages) as [[msgs | attrs] |] eqn:Hm; try discriminate.
  destruct (completions_create E (trace w) (chat_request msgs)) as [e | resp]
    eqn:Hcreate; [discriminate |].
  destruct (choices resp) as [| choice rest] eqn:Hchoices; [discriminate |].
  exists client, msgs, resp, choice, rest. do 4 (split; [done |]).
  destruct (String.eqb (finish_reason choice) "tool_calls") eqn:Hreason.
  - apply String.eqb_eq in Hreason.
    destruct (Me_handle_tool_call E me self (tool_calls (message choice))
                (arrived w msgs (inr resp))) as [[results | e |] w2] eqn:Hhandle;
      try discriminate.
    injection Hbody as <- <-. split; [done |]. right. eauto 10.
  - apply String.eqb_neq in Hreason.
    injection Hbody as <- <-. split; [done |]. by left.
Qed.

(** An iteration only adds to the trace. *)
Lemma chat_body_trace (st : ChatLoop) (w : World) :
  exists evs, trace (chat_body E me self messages st w).2 = trace w ++ evs.
Proof.
  destruct (preserves_chat_body E me _ _
              (extends_trace_invariant (trace w) (fun _ => True) (fun _ _ => I))
              self messages st (fun _ _ => I) w) as (evs & Hevs & _).
  - exists []. by rewrite app_nil_r.
  - by exists evs.
Qed.

(** The loop exits only from an iteration that received a completion which
    does not request tool calls; that completion is the last event. *)
Lemma chat_loop_Ok_inv (fuel : nat) (st st' : ChatLoop) (w w' : World) :
  done st = false ->
  chat_loop E me self messages fuel st w = (Ok st', w') ->
  exists msgs resp choice rest evs,
    trace w' = (trace w ++ evs) ++ [EvCreate (chat_request msgs) (inr resp)]
    /\ completions_create E (trace w ++ evs) (chat_request msgs) = inr resp
    /\ choices resp = choice :: rest
    /\ finish_reason choice <> "tool_calls"
    /\ st' = {| done := true; response := Some resp |}.
Proof.
  revert st w. induction fuel as [| fuel IH]; intros st w Hdone Hloop;
    unfold chat_loop in Hloop; cbn in Hloop; rewrite Hdone in Hloop; cbn in Hloop;
    [discriminate |].
  apply bind_Ok_inv in Hloop as (st1 & w1 & Hbody & Hloop).
  pose proof (chat_body_trace st w) as (evs1 & Hevs1). rewrite Hbody in Hevs1.
  cbn in Hevs1.
  apply chat_body_Ok_inv in Hbody
    as (client & msgs & resp & choice & rest & Hclient & Hm & Hcreate & Hchoices
        & Hresp & Hcase).
  destruct Hcase as [(Hplain & Hdone1 & ->) | (Htools & Hdone1 & _)].
  - destruct fuel; cbn in Hloop; rewrite Hdone1 in Hloop; cbn in Hloop;
      injection Hloop as <- <-;
      exists msgs, resp, choice, rest, []; rewrite app_nil_r;
      (split; [done |]); (split; [done |]); (split; [done |]); (split; [done |]);
      destruct st1 as [d r]; cbn in *; by subst.
  - rewrite Hdone in Hdone1.
    apply (IH st1 w1 Hdone1) in Hloop
      as (msgs' & resp' & choice' & rest' & evs & Htrace & Hcreate' & Hrest).
    exists msgs', resp', choice', rest', (evs1 ++ evs).
    rewrite Hevs1, <- !app_assoc in Htrace. rewrite Hevs1, <- app_assoc in Hcreate'.
    split; [by rewrite <- !app_assoc |]. by split.
Qed.

(** After a completion that requests tool calls, once the calls are handled,
    the loop goes on from the extended message list. *)
Lemma chat_loop_continues (fuel : nat) (st : ChatLoop) (w : World) (client : pyval)
    (msgs : list pyval) (resp : ChatCompletion) (choice : Choice)
    (rest : list Choice) (results : list pyval) (w2 : World) :
  done st = false ->
  getattr self "openai" w = (Ok client, w) ->
  heap w !! messages = Some (OList msgs) ->
  completions_create E (trace w) (chat_request msgs) = inr resp ->
  choices resp = choice :: rest ->
  finish_reason choice = "tool_calls" ->
  Me_handle_tool_call E me self (tool_calls (message choice))
    (arrived w msgs (inr resp)) = (Ok results, w2) ->
  chat_loop E me self messages (S fuel) st w
  = chat_loop E me self messages fuel
      {| done := false; response := Some resp |}
      (with_heap w2
         (<[messages := OList (msgs ++ PMessage (message choice) :: results)]>
            (heap w2))).
Proof.
  intros Hdone Hclient Hm Hcreate Hchoices Htools Hhandle.
  unfold chat_loop at 1. cbn [while_loop]. rewrite Hdone. cbn [negb].
  rewrite (bind_Ok _ _ _ _ _ (chat_body_tools st w client msgs resp choice rest
                                results w2 Hclient Hm Hcreate Hchoices Htools
                                Hhandle)).
  by rewrite Hdone.
Qed.

End ChatLoop.

(** ** Sample runs of the loop *)

(** A run where the model asks for [record_unknown_question] once and then
    answers: [chat] returns the answer. *)
Example chat_one_tool_then_answer :
  (Me_chat (samples.sample_env samples.one_tool_then_answer) 0 5 0
     (PStr "What is your shoe size?") 1 samples.world1).1
  = Ok (PStr "Hello").
Proof. vm_compute. reflexivity. Qed.

(** With a model that asks for a tool in every completion, the loop is still
    running after any number of iterations. *)
Lemma always_asking_loop_runs_on (messages fuel : nat) (st : ChatLoop) (w : World)
    (client : pyval) (msgs : list pyval) :
  done st = false ->
  getattr 0 "openai" w = (Ok client, w) ->
  heap w !! messages = Some (OList msgs) ->
  (chat_loop (samples.sample_env samples.always_asks) 0 0 messages fuel st w).1
  = OutOfFuel.
Proof.
  revert st w msgs. induction fuel as [| fuel IH]; intros st w msgs Hdone Hclient Hm.
  - unfold chat_loop. cbn. by rewrite Hdone.
  - assert (Hhandle : exists results w2,
      Me_handle_tool_call (samples.sample_env samples.always_asks) 0 0
        (tool_calls (message
           {| finish_reason := "tool_calls";
              message :=
                {| content := None;
                   tool_calls :=
                     Some [{| tc_id := "call_1";
                              tc_name := "record_unknown_question";
                              tc_arguments := samples.args_question |}] |} |}))
        (arrived w msgs (inr (samples.always_asks 0))) = (Ok results, w2)
      /\ heap w2 = heap w).
    { eexists _, _. split; [vm_compute; reflexivity | reflexivity]. }
    destruct Hhandle as (results & w2 & Hhandle & Hheap).
    rewrite (chat_loop_continues (samples.sample_env samples.always_asks) 0 0
               messages fuel st w client msgs _ _ [] results w2 Hdone Hclient Hm
               eq_refl eq_refl eq_refl Hhandle).
    apply getattr_Ok_inv in Hclient as (attrs & Hself & Hattr & _).
    assert (Hne : messages <> 0) by (intros ->; congruence).
    eapply IH; [done | |].
    + unfold getattr. cbn. rewrite lookup_insert_ne by done.
      by rewrite Hheap, Hself, Hattr.
    + cbn. by rewrite lookup_insert_eq.
Qed.

Example always_asking_model_never_returns (fuel : nat) :
  (Me_chat (samples.sample_env samples.always_asks) 0 fuel 0
     (PStr "What is your shoe size?") 1 samples.world1).1
  = OutOfFuel.
Proof.
  unfold Me_chat.
  pose proof (system_prompt_world (samples.sample_env samples.always_asks) 0
                samples.world1) as Hw.
  destruct (Me_system_prompt (samples.sample_env samples.always_asks) 0 samples.world1)
    as [[prompt | e |] w0] eqn:Hprompt; cbn in Hw; subst w0;
    [| vm_compute in Hprompt; discriminate | vm_compute in Hprompt; discriminate].
  rewrite (bind_Ok _ _ _ _ _ Hprompt).
  assert (Hhist : read_list 1 samples.world1 = (Ok [], samples.world1))
    by reflexivity.
  rewrite (bind_Ok _ _ _ _ _ Hhist).
  unfold bind at 1, alloc.
  apply bind_fst_OutOfFuel.
  eapply always_asking_loop_runs_on with (client := PForeign "OpenAI()").
  - reflexivity.
  - vm_compute. reflexivity.
  - cbn. by rewrite lookup_insert_eq.
Qed.

(** ** What [chat] returns *)

(** C10.  When [chat] returns, its loop has run: the loop left [response]
    bound to a completion (so the guard that returns the empty string is not
    taken), that completion is the last event of the run, fuel was spent on at
    least one iteration, and the value returned is the content of that
    completion's first choice. *)
Theorem chat_returns_final_content E (me fuel self : nat) (question : pyval)
    (history : nat) (w : World) (v : pyval) (w' : World) :
  Me_chat E me fuel self question history w = (Ok v, w') ->
  exists messages w1 st msgs resp choice rest evs,
    chat_loop E me self messages fuel {| done := false; response := None |} w1
    = (Ok st, w')
    /\ trace w1 = trace w
    /\ 0 < fuel
    /\ response st = Some resp
    /\ chat_return st w' = (Ok v, w')
    /\ trace w' = (trace w ++ evs) ++ [EvCreate (chat_request msgs) (inr resp)]
    /\ choices resp = choice :: rest
    /\ v = content_value (content (message choice)).
Proof.
  intros Hchat. unfold Me_chat in Hchat.
  apply bind_Ok_inv in Hchat as (prompt & w0 & Hprompt & Hchat).
  pose proof (system_prompt_world E self w) as Hw0. rewrite Hprompt in Hw0.
  cbn in Hw0. subst w0.
  apply bind_Ok_inv in Hchat as (hist & w0 & Hhist & Hchat).
  pose proof (read_list_world history w) as Hw0. rewrite Hhist in Hw0.
  cbn in Hw0. subst w0.
  apply bind_Ok_inv in Hchat as (messages & w1 & Halloc & Hchat).
  apply bind_Ok_inv in Hchat as (st & w2 & Hloop & Hret).
  injection Halloc as <- <-.
  pose proof (chat_loop_Ok_inv E me self _ fuel
                {| done := false; response := None |} st _ w2 eq_refl Hloop)
    as (msgs & resp & choice & rest & evs & Htrace & _ & Hchoices & _ & ->).
  unfold chat_return, bind in Hret. cbn in Hret. rewrite Hchoices in Hret.
  cbn in Hret. injection Hret as <- <-.
  eexists _, _, _, msgs, resp, choice, rest, evs.
  split; [exact Hloop |]. split; [done |]. split.
  { destruct fuel; [discriminate | lia]. }
  split; [done |]. split.
  { unfold chat_return, bind. cbn. by rewrite Hchoices. }
  done.
Qed.

Lemma chat_returns_final_content_witness :
  samples.sample_chat = (Ok (PStr "Hello"), samples.sample_chat.2)
  /\ exists messages w1 st msgs resp choice rest evs,
       chat_loop (samples.sample_env samples.one_tool_then_answer) 0 0 messages 5
         {| done := false; response := None |} w1
       = (Ok st, samples.sample_chat.2)
       /\ trace w1 = trace samples.world1
       /\ 0 < 5
       /\ response st = Some resp
       /\ chat_return st samples.sample_chat.2
          = (Ok (PStr "Hello"), samples.sample_chat.2)
       /\ trace samples.sample_chat.2
          = (trace samples.world1 ++ evs) ++ [EvCreate (chat_request msgs) (inr resp)]
       /\ choices resp = choice :: rest
       /\ PStr "Hello" = content_value (content (message choice)).
Proof.
  assert (Hrun : samples.sample_chat = (Ok (PStr "Hello"), samples.sample_chat.2))
    by (vm_compute; reflexivity).
  split; [exact Hrun |].
  exact (chat_returns_final_content
           (samples.sample_env samples.one_tool_then_answer) 0 5 0
           (PStr "What is your shoe size?") 1 samples.world1
           (PStr "Hello") samples.sample_chat.2 Hrun).
Defined.

(** ** The message list *)

(** C5.  The message list of a run of [chat] only grows at its end, and the
    caller's list is left alone.  (1) The list object that the caller passed
    as [history] holds the same entries after [chat] as before, whatever the
    outcome.  (2) One iteration of the loop either ends the loop and leaves
    the message list as it was, or appends the model's message followed by
    the tool results; an iteration that raises leaves the list as it was.
    (3) Over any number of iterations the list is its initial value followed
    by a suffix: no earlier entry is changed or removed. *)
Theorem chat_messages_append_only E (me self : nat) :
  (forall fuel question history h w,
     heap w !! history = Some (OList h) ->
     heap (Me_chat E me fuel self question history w).2 !! history = Some (OList h))
  /\ (forall messages st w ms,
        heap w !! messages = Some (OList ms) ->
        match chat_body E me self messages st w with
        | (Ok st', w') =>
            (done st' = true /\ heap w' !! messages = Some (OList ms))
            \/ (done st' = done st
                /\ exists m results,
                     heap w' !! messages = Some (OList (ms ++ PMessage m :: results)))
        | (_, w') => heap w' !! messages = Some (OList ms)
        end)
  /\ (forall fuel messages st w ms,
        heap w !! messages = Some (OList ms) ->
        exists suffix,
          heap (chat_loop E me self messages fuel st w).2 !! messages
          = Some (OList (ms ++ suffix))).
Proof.
  split; [| split].
  - intros fuel question history h w Hh.
    destruct (preserves_chat E me _ _
                (holds_at_invariant history (fun o => o = OList h))
                fuel self question history w) as (o & Ho & ->); [by eexists | done].
  - intros messages st w ms Hm.
    rewrite chat_body_cases, Hm.
    destruct (getattr self "openai" w).1; try done.
    destruct (completions_create E (trace w) (chat_request ms)) as [e | resp];
      [done |].
    destruct (choices resp) as [| choice rest]; [done |].
    destruct (String.eqb (finish_reason choice) "tool_calls").
    + pose proof (handle_tool_call_keeps_cell E me self (tool_calls (message choice))
                    messages (OList ms) (arrived w ms (inr resp)) Hm) as Hkeep.
      destruct (Me_handle_tool_call E me self (tool_calls (message choice))
                  (arrived w ms (inr resp))) as [[results | e |] w2]; try done.
      right. split; [done |]. exists (message choice), results. cbn.
      by rewrite lookup_insert_eq.
    + left. by split.
  - intros fuel messages st w ms Hm.
    set (P := fun o => exists suffix, o = OList (ms ++ suffix)).
    assert (Hloop : preserves (holds_at messages P)
                      (chat_loop E me self messages fuel st)).
    { apply preserves_while_loop. intros st0.
      apply (preserves_chat_body E me _ _ (holds_at_invariant messages P)).
      intros ys xs _ (suffix & Hys). injection Hys as ->.
      exists (suffix ++ xs). by rewrite app_assoc. }
    destruct (Hloop w) as (o & Ho & suffix & ->).
    + exists (OList ms). split; [done |]. exists []. by rewrite app_nil_r.
    + by exists suffix.
Qed.

(** ** The persona profile *)

Lemma extracted_text_app (evs1 evs2 : list event) :
  extracted_text (evs1 ++ evs2) = extracted_text evs1 +:+ extracted_text evs2.
Proof.
  induction evs1 as [| ev evs1 IH]; [done |].
  destruct ev as [| | | | | path page [e | text] |]; cbn; try done.
  by rewrite IH, append_assoc.
Qed.

(** The loop over the pages appends every extracted text to [bio] and
    touches no other attribute. *)
Lemma pages_loop_Ok E (self : nat) (pdf_path : string) (pages : list nat)
    (w w' : World) (attrs : gmap string pyval) (b : string) :
  heap w !! self = Some (OInstance attrs) ->
  attrs !! "bio" = Some (PStr b) ->
  for_each pages (fun page =>
    text <- external (fun t => extract_text E t pdf_path page)
                     (EvExtractText pdf_path page) ;;
    if truthy (PStr text)
    then
      bio <- getattr self "bio" ;;
      match bio with
      | PStr b => setattr self "bio" (PStr (b +:+ text))
      | _ => raise TypeError
      end
    else ret tt) w = (Ok tt, w') ->
  exists evs attrs',
    trace w' = trace w ++ evs
    /\ heap w' !! self = Some (OInstance attrs')
    /\ attrs' !! "bio" = Some (PStr (b +:+ extracted_text evs))
    /\ forall k, k <> "bio" -> attrs' !! k = attrs !! k.
Proof.
  revert w attrs b. induction pages as [| page pages IH]; intros w attrs b Hself Hbio Hrun.
  - injection Hrun as <-. exists [], attrs.
    rewrite app_nil_r. cbn. by rewrite append_empty_r.
  - cbn [for_each] in Hrun. apply bind_Ok_inv in Hrun as ([] & w1 & Hstep & Hrun).
    apply bind_Ok_inv in Hstep as (text & w0 & Hext & Hstep).
    apply external_Ok_inv in Hext as (Hask & ->).
    destruct text as [| c text']; cbn in Hstep.
    + injection Hstep as <-.
      destruct (IH (with_trace w (trace w ++ [EvExtractText pdf_path page (inr "")]))
                  attrs b Hself Hbio Hrun)
        as (evs & attrs' & Htrace & Hself' & Hbio' & Hother).
      exists (EvExtractText pdf_path page (inr "") :: evs), attrs'.
      cbn in Htrace. rewrite <- app_assoc in Htrace. cbn in Htrace.
      split; [done |]. split; [done |]. by split.
    + set (text := String c text') in *.
      apply bind_Ok_inv in Hstep as (bio & w0 & Hget & Hset).
      apply getattr_Ok_inv in Hget as (attrs0 & Hself0 & Hbio0 & ->).
      cbn in Hself0. rewrite Hself in Hself0. injection Hself0 as <-.
      rewrite Hbio in Hbio0. injection Hbio0 as <-.
      apply setattr_Ok_inv in Hset as (attrs0 & Hself0 & ->).
      cbn in Hself0. rewrite Hself in Hself0. injection Hself0 as <-.
      assert (Hself1 : heap (with_heap
                (with_trace w (trace w ++ [EvExtractText pdf_path page (inr text)]))
                (<[self := OInstance (<["bio" := PStr (b +:+ text)]> attrs)]> (heap w)))
                !! self
              = Some (OInstance (<["bio" := PStr (b +:+ text)]> attrs)))
        by (cbn; by rewrite lookup_insert_eq).
      assert (Hbio1 : <["bio" := PStr (b +:+ text)]> attrs !! "bio"
                      = Some (PStr (b +:+ text)))
        by (by rewrite lookup_insert_eq).
      destruct (IH _ _ _ Hself1 Hbio1 Hrun)
        as (evs & attrs' & Htrace & Hself' & Hbio' & Hother).
      exists (EvExtractText pdf_path page (inr text) :: evs), attrs'.
      cbn in Htrace. rewrite <- app_assoc in Htrace. cbn in Htrace.
      split; [done |]. split; [done |]. split.
      * cbn [extracted_text]. by rewrite <- append_assoc.
      * intros k Hk. rewrite Hother by done. by rewrite lookup_insert_ne.
Qed.

(** What a successful construction leaves in the new instance. *)
Lemma Me_new_Ok E (w : World) (self : nat) (w' : World) :
  Me_new E w = (Ok self, w') ->
  exists attrs pre path summary,
    heap w !! self = None
    /\ heap w' !! self = Some (OInstance attrs)
    /\ trace w' = trace w ++ pre ++ [EvRead path (inr summary)]
    /\ attrs !! "name" = Some (PStr "Ypatios Chaniotakos")
    /\ attrs !! "bio" = Some (PStr (extracted_text pre))
    /\ attrs !! "summary" = Some (PStr summary).
Proof.
  intros Hnew. unfold Me_new in Hnew.
  apply bind_Ok_inv in Hnew as (l & w0 & Halloc & Hnew).
  injection Halloc as <- <-.
  apply bind_Ok_inv in Hnew as ([] & w1 & Hinit & Hret).
  injection Hret as <- <-.
  set (l := fresh (dom (heap w))) in *.
  unfold Me_init in Hinit.
  apply bind_Ok_inv in Hinit as ([] & w0 & Hopen & Hinit).
  apply external_Ok_inv in Hopen as (Hopen & ->).
  apply bind_Ok_inv in Hinit as ([] & w0 & Hset & Hinit).
  apply setattr_Ok_inv in Hset as (attrs0 & Hl0 & ->).
  cbn in Hl0. rewrite lookup_insert_eq in Hl0. injection Hl0 as <-.
  apply bind_Ok_inv in Hinit as ([] & w0 & Hset & Hinit).
  apply setattr_Ok_inv in Hset as (attrs0 & Hl0 & ->).
  cbn in Hl0. rewrite lookup_insert_eq in Hl0. injection Hl0 as <-.
  apply bind_Ok_inv in Hinit as (npages & w0 & Hpdf & Hinit).
  apply external_Ok_inv in Hpdf as (Hpdf & ->).
  apply bind_Ok_inv in Hinit as ([] & w0 & Hset & Hinit).
  apply setattr_Ok_inv in Hset as (attrs0 & Hl0 & ->).
  cbn in Hl0. rewrite lookup_insert_eq in Hl0. injection Hl0 as <-.
  apply bind_Ok_inv in Hinit as ([] & w0 & Hpages & Hinit).
  eapply pages_loop_Ok with (b := "") in Hpages
    as (evs & attrs' & Htrace & Hl' & Hbio' & Hother);
    [| cbn; by rewrite lookup_insert_eq | by rewrite lookup_insert_eq].
  apply bind_Ok_inv in Hinit as (summary & w2 & Hread & Hset).
  apply external_Ok_inv in Hread as (Hread & ->).
  apply setattr_Ok_inv in Hset as (attrs0 & Hl0 & ->).
  cbn in Hl0. rewrite Hl' in Hl0. injection Hl0 as <-.
  eexists _, ([EvOpenAI (inr ()); EvPdfReader _ (inr npages)] ++ evs), _, summary.
  split; [apply fresh_not_allocated |]. split; [cbn; by rewrite lookup_insert_eq |].
  split; [| split; [| split]].
  - cbn. rewrite Htrace. cbn. by rewrite <- !app_assoc.
  - rewrite lookup_insert_ne by done. rewrite Hother by done.
    rewrite lookup_insert_ne by done. by rewrite lookup_insert_eq.
  - rewrite lookup_insert_ne by done. by rewrite Hbio'.
  - by rewrite lookup_insert_eq.
Qed.

(** C6.  The profile is set by the constructor and kept afterwards.
    (1) When [Me()] returns, the new instance holds the fixed name, as [bio]
    the text extracted from the PDF pages, and as [summary] the text read
    from the summary file, the last thing the constructor does.  (2) An
    instance that exists is left exactly as it is, whatever the outcome, by
    [system_prompt], by [chat] and by [handle_tool_call]. *)
Theorem profile_set_once_then_kept E (me : nat) :
  (forall w self w',
     Me_new E w = (Ok self, w') ->
     exists attrs pre path summary,
       heap w !! self = None
       /\ heap w' !! self = Some (OInstance attrs)
       /\ trace w' = trace w ++ pre ++ [EvRead path (inr summary)]
       /\ attrs !! "name" = Some (PStr "Ypatios Chaniotakos")
       /\ attrs !! "bio" = Some (PStr (extracted_text pre))
       /\ attrs !! "summary" = Some (PStr summary))
  /\ (forall self o w,
        heap w !! self = Some o ->
        heap (Me_system_prompt E self w).2 !! self = Some o
        /\ (forall fuel question history,
              heap (Me_chat E me fuel self question history w).2 !! self = Some o)
        /\ (forall calls,
              heap (Me_handle_tool_call E me self calls w).2 !! self = Some o)).
Proof.
  split; [apply Me_new_Ok |].
  intros self o w Hself. split; [by rewrite system_prompt_world |]. split.
  - intros fuel question history.
    destruct (preserves_chat E me _ _
                (holds_at_invariant self (fun o' => o' = o))
                fuel self question history w) as (o' & Ho' & ->); [by eexists | done].
  - intros calls. by apply handle_tool_call_keeps_cell.
Qed.

(** The constructor on the sample files. *)
Example Me_new_sample :
  let run := Me_new (samples.sample_env samples.one_tool_then_answer) samples.world0 in
  run.1 = Ok 0 /\ heap run.2 !! 0 = Some (OInstance samples.profile).
Proof. vm_compute. split; reflexivity. Qed.

(** ** The tool schema *)

(** C7.  Every chat-completion request that a run of [chat] sends, whatever
    its outcome and length, carries the list [tools]; and [tools] holds
    exactly two function descriptions: [record_user_details] with required
    parameter [email], further parameters [name] and [notes] and no
    additional properties, and [record_unknown_question] with required
    parameter [question], no further parameter and no additional
    properties. *)
Theorem chat_requests_carry_tools E (me fuel self : nat) (question : pyval)
    (history : nat) (w : World) :
  (exists evs,
     trace (Me_chat E me fuel self question history w).2 = trace w ++ evs
     /\ forall req r, EvCreate req r ∈ evs -> rq_tools req = tools)
  /\ tool_schemas tools
     = [Some {| fs_name := "record_user_details";
                fs_required := ["email"];
                fs_optional := ["name"; "notes"];
                fs_additional := false |};
        Some {| fs_name := "record_unknown_question";
                fs_required := ["question"];
                fs_optional := [];
                fs_additional := false |}].
Proof.
  split; [| reflexivity].
  destruct (preserves_chat E me _ _
              (extends_trace_invariant (trace w) script_event (fun _ H => H))
              fuel self question history w) as (evs & Htrace & Hall).
  { exists []. by rewrite app_nil_r. }
  exists evs. split; [done |]. intros req r Hin.
  rewrite Forall_forall in Hall. by destruct (Hall _ Hin).
Qed.

(** The requests of the sample run: two, both with [tools]. *)
Example sample_chat_requests :
  map (fun ev => match ev with
                 | EvCreate req _ => Some (rq_tools req)
                 | _ => None
                 end)
      (List.filter (fun ev => match ev with EvCreate _ _ => true | _ => false end)
         (trace samples.sample_chat.2))
  = [Some tools; Some tools].
Proof. vm_compute. reflexivity. Qed.

(** ** Failures of the outside *)

Lemma propagated_last {A} (evs : list event) (o : outcome A)
    (pre : list event) (ev : event) (post : list event) (e : exn) :
  propagated evs o ->
  evs = pre ++ ev :: post ->
  failure ev = Some e ->
  post = [] /\ o = Raise e.
Proof.
  intros [Hquiet | (pre0 & ev0 & e0 & -> & Hquiet & Hfail0 & ->)] Hsplit Hfail.
  - subst evs. unfold quiet in Hquiet. rewrite Forall_app, Forall_cons in Hquiet.
    destruct Hquiet as (_ & Hev & _). congruence.
  - destruct post as [| x post _] using rev_ind.
    + apply app_inj_tail in Hsplit as [-> ->]. split; [done |]. congruence.
    + rewrite app_comm_cons, app_assoc in Hsplit.
      apply app_inj_tail in Hsplit as [-> ->].
      unfold quiet in Hquiet. rewrite Forall_app, Forall_cons in Hquiet.
      destruct Hquiet as (_ & Hev & _). congruence.
Qed.

Lemma uncaught_silent {A} (m : M World A) :
  (forall w, trace (m w).2 = trace w) -> uncaught m.
Proof.
  intros Hm w. exists []. rewrite app_nil_r. split; [apply Hm |].
  left. constructor.
Qed.

Lemma uncaught_ret {A} (a : A) : uncaught (ret a).
Proof. by apply uncaught_silent. Qed.

Lemma uncaught_raise {A} (e : exn) : uncaught (@raise World A e).
Proof. by apply uncaught_silent. Qed.

Lemma uncaught_bind {A B} (m : M World A) (k : A -> M World B) :
  uncaught m -> (forall a, uncaught (k a)) -> uncaught (bind m k).
Proof.
  intros Hm Hk w. destruct (Hm w) as (evs1 & Ht1 & Hp1). unfold bind.
  destruct (m w) as [[a | e |] w1]; cbn in *.
  - destruct (Hk a w1) as (evs2 & Ht2 & Hp2).
    exists (evs1 ++ evs2). split; [by rewrite Ht2, Ht1, app_assoc |].
    destruct Hp1 as [Hq1 | (pre & ev & e & _ & _ & _ & Habs)]; [| discriminate].
    destruct Hp2 as [Hq2 | (pre & ev & e & -> & Hq2 & Hfail & Ho)].
    + left. by apply Forall_app.
    + right. exists (evs1 ++ pre), ev, e. rewrite app_assoc.
      repeat split; try done. by apply Forall_app.
  - exists evs1. split; [done |].
    destruct Hp1 as [Hq1 | (pre & ev & e0 & -> & Hq & Hfail & Ho)]; [by left |].
    right. exists pre, ev, e0. repeat split; try done. congruence.
  - exists evs1. split; [done |].
    destruct Hp1 as [Hq1 | (pre & ev & e0 & _ & _ & _ & Habs)]; [by left | discriminate].
Qed.

Lemma uncaught_for_each {A} (xs : list A) (body : A -> M World unit) :
  (forall x, uncaught (body x)) -> uncaught (for_each xs body).
Proof.
  intros Hbody. induction xs as [| x xs IH]; cbn.
  - apply uncaught_ret.
  - apply uncaught_bind; [apply Hbody | intros _; apply IH].
Qed.

Lemma uncaught_print (line : string) : uncaught (print line).
Proof.
  intros w. exists [EvPrint line]. split; [done |]. left.
  by repeat constructor.
Qed.

Lemma uncaught_external {A} (ask : list event -> exn + A) (ev : exn + A -> event) :
  (forall r, failure (ev r) = failed r) -> uncaught (external ask ev).
Proof.
  intros Hev w. unfold external. exists [ev (ask (trace w))].
  destruct (ask (trace w)) as [e | a] eqn:Hr; cbn; (split; [done |]).
  - right. exists [], (ev (inl e)), e.
    split; [done |]. split; [constructor |]. split; [by rewrite Hev | done].
  - left. constructor; [by rewrite Hev | constructor].
Qed.

Lemma setattr_trace (self : nat) (a : string) (v : pyval) (w : World) :
  trace (setattr self a v w).2 = trace w.
Proof.
  unfold setattr. by destruct (heap w !! self) as [[xs | attrs] |].
Qed.

Lemma uncaught_push E (message : pyval) : uncaught (push E message).
Proof.
  unfold push. apply uncaught_bind; [apply uncaught_print | intros _].
  apply uncaught_bind; [by apply uncaught_external | intros _].
  apply uncaught_ret.
Qed.

Lemma uncaught_Me_init E (self : nat) : uncaught (Me_init E self).
Proof.
  unfold Me_init.
  apply uncaught_bind; [by apply uncaught_external | intros _].
  apply uncaught_bind; [apply uncaught_silent, setattr_trace | intros _].
  apply uncaught_bind; [apply uncaught_silent, setattr_trace | intros _].
  apply uncaught_bind; [by apply uncaught_external | intros npages].
  apply uncaught_bind; [apply uncaught_silent, setattr_trace | intros _].
  apply uncaught_bind.
  - apply uncaught_for_each. intros page.
    apply uncaught_bind; [by apply uncaught_external | intros text].
    destruct (truthy (PStr text)); [| apply uncaught_ret].
    apply uncaught_bind.
    + apply uncaught_silent. intros w. by rewrite getattr_world.
    + intros bio. destruct bio; try apply uncaught_raise.
      apply uncaught_silent, setattr_trace.
  - intros _.
    apply uncaught_bind; [by apply uncaught_external | intros summary].
    apply uncaught_silent, setattr_trace.
Qed.

Lemma uncaught_Me_new E : uncaught (Me_new E).
Proof.
  unfold Me_new. apply uncaught_bind; [by apply uncaught_silent | intros self].
  apply uncaught_bind; [apply uncaught_Me_init | intros _; apply uncaught_ret].
Qed.

(** C8.  Failures of the outside propagate.  (1) [push] prints, issues exactly
    one POST, and raises the exception of that POST if it failed: nothing
    follows the POST.  (2) In the constructor of [Me], and in every call of
    [push], a library call that raises (the client, the PDF reader, a page
    extraction, the summary read, the POST) is the last event of the run and
    its exception is the outcome: nothing is retried and no value is
    returned.  (3) In particular, when the PDF cannot be opened the
    constructor raises that exception right after the attempt. *)
Theorem failures_propagate_uncaught E :
  (forall message w,
     let line := EvPrint ("Pushing notification: " +:+ fmt E message) in
     let payload := PDict [("token", pushover_token E); ("user", pushover_user E);
                           ("message", message)] in
     let r := requests_post E (trace w ++ [line]) (pushover_url E) payload in
     push E message w
     = (match r with inl e => Raise e | inr _ => Ok PNone end,
        with_trace w (trace w ++ [line; EvPost (pushover_url E) payload r])))
  /\ (forall message w pre ev post e,
        trace (push E message w).2 = trace w ++ pre ++ ev :: post ->
        failure ev = Some e ->
        post = [] /\ (push E message w).1 = Raise e)
  /\ (forall w pre ev post e,
        trace (Me_new E w).2 = trace w ++ pre ++ ev :: post ->
        failure ev = Some e ->
        post = [] /\ (Me_new E w).1 = Raise e)
  /\ (forall w e,
        let pdf_path := path_join (path_join (path_dirname (dunder_file E)) "data")
                          "chaniotakos.pdf" in
        OpenAI_new E (trace w) = inr tt ->
        PdfReader_open E (trace w ++ [EvOpenAI (inr tt)]) pdf_path = inl e ->
        (Me_new E w).1 = Raise e
        /\ trace (Me_new E w).2
           = trace w ++ [EvOpenAI (inr tt); EvPdfReader pdf_path (inl e)]).
Proof.
  split; [| split; [| split]].
  - intros message w line payload r. unfold push, bind, print, external. cbn.
    fold line. fold payload. fold r.
    destruct r as [e | []]; cbn; by rewrite <- app_assoc.
  - intros message w pre ev post e Htrace Hfail.
    destruct (uncaught_push E message w) as (evs & Hevs & Hprop).
    rewrite Hevs in Htrace. apply app_inv_head in Htrace.
    by apply (propagated_last evs _ pre ev post e).
  - intros w pre ev post e Htrace Hfail.
    destruct (uncaught_Me_new E w) as (evs & Hevs & Hprop).
    rewrite Hevs in Htrace. apply app_inv_head in Htrace.
    by apply (propagated_last evs _ pre ev post e).
  - intros w e pdf_path Hopen Hpdf.
    unfold Me_new, Me_init. cbv zeta. fold pdf_path. clearbody pdf_path.
    unfold bind, alloc, external, setattr. cbn.
    rewrite Hopen. cbn. rewrite lookup_insert_eq. cbn.
    rewrite lookup_insert_eq. cbn. rewrite Hpdf. cbn.
    by rewrite <- app_assoc.
Qed.

(** The constructor and [push] when the PDF is missing and the webhook is
    unreachable. *)
Example offline_runs :
  Me_new samples.offline_env samples.world0
  = (Raise (LibraryError "FileNotFoundError"),
     (Me_new samples.offline_env samples.world0).2)
  /\ (push samples.offline_env (PStr "hi") samples.world0).1
     = Raise (LibraryError "ConnectionError").
Proof. split; vm_compute; reflexivity. Qed.

(** ** Tool calls *)

(** Where global names lead. *)
Lemma globals_get_tools E (me : nat) : globals_get E me "tools" = tools.
Proof. reflexivity. Qed.

Lemma globals_get_record_user_details E (me : nat) :
  globals_get E me "record_user_details" = PFunction Frecord_user_details.
Proof. reflexivity. Qed.

Lemma globals_get_record_unknown_question E (me : nat) :
  globals_get E me "record_unknown_question" = PFunction Frecord_unknown_question.
Proof. reflexivity. Qed.

Lemma finishes_bind {A B} (m : M World A) (k : A -> M World B) :
  finishes m -> (forall a, finishes (k a)) -> finishes (bind m k).
Proof.
  intros Hm Hk w. specialize (Hm w). unfold bind.
  destruct (m w) as [[a | e |] w1]; cbn in *; [apply Hk | done | done].
Qed.

Lemma finishes_ret {A} (a : A) : finishes (ret a).
Proof. by intros w. Qed.

Lemma finishes_raise {A} (e : exn) : finishes (@raise World A e).
Proof. by intros w. Qed.

Lemma finishes_lift {A} (r : exn + A) : finishes (lift r).
Proof. destruct r; [apply finishes_raise | apply finishes_ret]. Qed.

Lemma finishes_external {A} (ask : list event -> exn + A) (ev : exn + A -> event) :
  finishes (external ask ev).
Proof. intros w. unfold external. by destruct (ask (trace w)). Qed.

Lemma finishes_setattr (self : nat) (a : string) (v : pyval) :
  finishes (setattr self a v).
Proof.
  intros w. unfold setattr. by destruct (heap w !! self) as [[xs | attrs] |].
Qed.

Lemma finishes_getattr (self : nat) (a : string) : finishes (getattr self a).
Proof.
  intros w. unfold getattr.
  destruct (heap w !! self) as [[xs | attrs] |]; [done | | done].
  by destruct (attrs !! a).
Qed.

Lemma finishes_for_each {A} (xs : list A) (body : A -> M World unit) :
  (forall x, finishes (body x)) -> finishes (for_each xs body).
Proof.
  intros Hbody. induction xs as [| x xs IH]; cbn.
  - apply finishes_ret.
  - apply finishes_bind; [apply Hbody | intros _; apply IH].
Qed.

Lemma finishes_push E (message : pyval) : finishes (push E message).
Proof.
  unfold push. apply finishes_bind; [done | intros _].
  apply finishes_bind; [apply finishes_external | intros _; apply finishes_ret].
Qed.

Lemma finishes_call_function E (f : func) (kw : list (string * pyval)) :
  finishes (call_function E f kw).
Proof.
  destruct f; cbn.
  - destruct (kwargs_fit _ _ kw); [apply finishes_push | apply finishes_raise].
  - destruct (kwargs_fit _ _ kw); [| apply finishes_raise].
    apply finishes_bind; [apply finishes_push | intros _; apply finishes_ret].
  - destruct (kwargs_fit _ _ kw); [| apply finishes_raise].
    apply finishes_bind; [apply finishes_push | intros _; apply finishes_ret].
Qed.

Lemma finishes_Me_new E : finishes (Me_new E).
Proof.
  unfold Me_new. apply finishes_bind; [done | intros self].
  apply finishes_bind; [| intros _; apply finishes_ret].
  unfold Me_init.
  apply finishes_bind; [apply finishes_external | intros _].
  apply finishes_bind; [apply finishes_setattr | intros _].
  apply finishes_bind; [apply finishes_setattr | intros _].
  apply finishes_bind; [apply finishes_external | intros npages].
  apply finishes_bind; [apply finishes_setattr | intros _].
  apply finishes_bind.
  - apply finishes_for_each. intros page.
    apply finishes_bind; [apply finishes_external | intros text].
    destruct (truthy (PStr text)); [| apply finishes_ret].
    apply finishes_bind; [apply finishes_getattr | intros bio].
    destruct bio; try apply finishes_raise. apply finishes_setattr.
  - intros _.
    apply finishes_bind; [apply finishes_external | intros summary].
    apply finishes_setattr.
Qed.

Lemma finishes_handle_one E (me : nat) (tool_call : ToolCall) :
  finishes (handle_one E me tool_call).
Proof.
  unfold handle_one.
  apply finishes_bind; [apply finishes_lift | intros arguments].
  apply finishes_bind; [done | intros _].
  apply finishes_bind; [| intros result].
  - unfold dispatch. destruct (truthy _); [| apply finishes_ret].
    unfold call_tool. destruct arguments; try apply finishes_raise.
    destruct (globals_get E me (tc_name tool_call)); try apply finishes_raise.
    + apply finishes_call_function.
    + destruct d; [| apply finishes_raise].
      apply finishes_bind; [apply finishes_Me_new | intros l; apply finishes_ret].
    + apply finishes_lift.
  - apply finishes_bind; [apply finishes_lift | intros text; apply finishes_ret].
Qed.

Lemma finishes_handle_loop E (me : nat) (calls : list ToolCall) (acc : list pyval) :
  finishes (handle_loop E me calls acc).
Proof.
  revert acc. induction calls as [| call calls IH]; intros acc; cbn.
  - apply finishes_ret.
  - apply finishes_bind; [apply finishes_handle_one | intros entry; apply IH].
Qed.

Lemma handle_one_Ok E (me : nat) (tool_call : ToolCall) (w : World)
    (entry : pyval) (w1 : World) :
  handle_one E me tool_call w = (Ok entry, w1)
  <-> exists arguments result text,
        json_loads E (tc_arguments tool_call) = inr arguments
        /\ dispatch E me tool_call arguments (announced w tool_call) = (Ok result, w1)
        /\ json_dumps E result = inr text
        /\ entry = tool_message text tool_call.
Proof.
  unfold handle_one, bind, print, announced. split.
  - destruct (json_loads E (tc_arguments tool_call)) as [e | arguments] eqn:Hl;
      cbn; [discriminate |].
    destruct (dispatch E me tool_call arguments _) as [[result | e |] w0] eqn:Hd;
      try discriminate.
    destruct (json_dumps E result) as [e | text] eqn:Hj; cbn; [discriminate |].
    intros H. injection H as <- <-. exists arguments, result, text.
    by rewrite Hd, Hj.
  - intros (arguments & result & text & -> & Hd & Hdumps & ->). cbn.
    by rewrite Hd, Hdumps.
Qed.

Lemma handle_loop_Ok E (me : nat) (calls : list ToolCall) (acc : list pyval)
    (w : World) (results : list pyval) (w' : World) :
  handle_loop E me calls acc w = (Ok results, w')
  <-> exists entries, results = acc ++ entries /\ handled E me w calls entries w'.
Proof.
  revert acc w. induction calls as [| call calls IH]; intros acc w; cbn.
  - split.
    + intros H. injection H as <- <-. exists []. rewrite app_nil_r.
      split; [done | constructor].
    + intros (entries & -> & H). inversion H; subst. by rewrite app_nil_r.
  - split.
    + intros H. apply bind_Ok_inv in H as (entry & w1 & Hone & Hrest).
      apply handle_one_Ok in Hone as (arguments & result & text & Hl & Hd & Hj & ->).
      apply IH in Hrest as (entries & -> & Hrest).
      exists (tool_message text call :: entries).
      split; [by rewrite <- app_assoc |]. by econstructor.
    + intros (entries & -> & H). inversion H; subst.
      assert (Hone : handle_one E me call w = (Ok (tool_message text call), w1))
        by (apply handle_one_Ok; eauto 10).
      rewrite (bind_Ok _ _ _ _ _ Hone). apply IH.
      exists entries0. split; [by rewrite <- app_assoc | done].
Qed.

Lemma handled_entries E (me : nat) (w : World) (calls : list ToolCall)
    (entries : list pyval) (w' : World) :
  handled E me w calls entries w' ->
  List.length entries = List.length calls
  /\ forall i tool_call,
       calls !! i = Some tool_call ->
       exists arguments result text w1 w2,
         json_loads E (tc_arguments tool_call) = inr arguments
         /\ dispatch E me tool_call arguments w1 = (Ok result, w2)
         /\ json_dumps E result = inr text
         /\ entries !! i = Some (tool_message text tool_call).
Proof.
  induction 1 as [w | w call calls arguments result w1 text entries w2
                       Hl Hd Hj Hrest [IHlen IHnth]].
  - split; [done |]. intros i call Hi. by destruct i.
  - split; [cbn; by rewrite IHlen |].
    intros [| i] tool_call Hi; cbn in Hi.
    + injection Hi as <-. by exists arguments, result, text, (announced w call), w1.
    + by apply IHnth.
Qed.

(** C9, amended.  [handle_tool_call] on a list of tool calls always comes to
    an end, and it returns exactly when every call, in order, has arguments
    that parse, a dispatch that returns and a result that serialises.  The
    list it then returns has the length of the list of calls, and its [i]-th
    entry is the dictionary with role [tool], the [i]-th call's id as
    [tool_call_id], and as content the JSON text of what the [i]-th call's
    dispatch returned. *)
Theorem handle_tool_call_entries E (me self : nat) (calls : list ToolCall) (w : World) :
  (Me_handle_tool_call E me self (Some calls) w).1 <> OutOfFuel
  /\ (forall results w',
        Me_handle_tool_call E me self (Some calls) w = (Ok results, w')
        <-> handled E me w calls results w')
  /\ (forall results w',
        Me_handle_tool_call E me self (Some calls) w = (Ok results, w') ->
        List.length results = List.length calls
        /\ forall i tool_call,
             calls !! i = Some tool_call ->
             exists arguments result text w1 w2,
               json_loads E (tc_arguments tool_call) = inr arguments
               /\ dispatch E me tool_call arguments w1 = (Ok result, w2)
               /\ json_dumps E result = inr text
               /\ results !! i
                  = Some (PDict [("role", PStr "tool"); ("content", PStr text);
                                 ("tool_call_id", PStr (tc_id tool_call))])).
Proof.
  assert (Hiff : forall results w',
    Me_handle_tool_call E me self (Some calls) w = (Ok results, w')
    <-> handled E me w calls results w').
  { intros results w'. cbn. rewrite handle_loop_Ok. split.
    - by intros (entries & -> & H).
    - intros H. by exists results. }
  split; [apply finishes_handle_loop |]. split; [exact Hiff |].
  intros results w' H. apply Hiff in H. by apply handled_entries in H.
Qed.

(** C9 as stated fails: a call of [record_unknown_question] whose arguments
    are the empty JSON object misses the parameter [question], the call
    raises [TypeError], and no list is returned. *)
Lemma handle_tool_call_missing_argument :
  let calls := [{| tc_id := "call_1"; tc_name := "record_unknown_question";
                   tc_arguments := "{}" |}] in
  (Me_handle_tool_call (samples.sample_env samples.one_tool_then_answer) 0 0
     (Some calls) samples.world1).1 = Raise TypeError
  /\ ~ exists results w',
         Me_handle_tool_call (samples.sample_env samples.one_tool_then_answer) 0 0
           (Some calls) samples.world1 = (Ok results, w')
         /\ List.length results = List.length calls.
Proof.
  assert (H : (Me_handle_tool_call (samples.sample_env samples.one_tool_then_answer)
                 0 0 (Some [{| tc_id := "call_1";
                               tc_name := "record_unknown_question";
                               tc_arguments := "{}" |}]) samples.world1).1
              = Raise TypeError) by (vm_compute; reflexivity).
  split; [exact H |].
  intros (results & w' & Heq & _). rewrite Heq in H. discriminate.
Qed.

(** A list of two calls that are both handled. *)
Example handle_tool_call_two_calls :
  (Me_handle_tool_call (samples.sample_env samples.one_tool_then_answer) 0 0
     (Some [{| tc_id := "call_1"; tc_name := "record_unknown_question";
               tc_arguments := samples.args_question |};
            {| tc_id := "call_2"; tc_name := "lookup_weather";
               tc_arguments := "{}" |}]) samples.world1).1
  = Ok [tool_message ("{" +:+ samples.dq +:+ "recorded" +:+ samples.dq +:+ ": "
                      +:+ samples.dq +:+ "ok" +:+ samples.dq +:+ "}")
          {| tc_id := "call_1"; tc_name := "record_unknown_question";
             tc_arguments := samples.args_question |};
        tool_message "{}"
          {| tc_id := "call_2"; tc_name := "lookup_weather"; tc_arguments := "{}" |}].
Proof. vm_compute. reflexivity. Qed.

(** The two tools of the schema lead to their functions. *)
Lemma recognized_tools_dispatch E (me : nat) (id args : string) (arguments : pyval) :
  dispatch E me {| tc_id := id; tc_name := "record_user_details";
                   tc_arguments := args |} arguments
  = call_tool E (PFunction Frecord_user_details) arguments
  /\ dispatch E me {| tc_id := id; tc_name := "record_unknown_question";
                      tc_arguments := args |} arguments
     = call_tool E (PFunction Frecord_unknown_question) arguments.
Proof. split; reflexivity. Qed.

(** A name that the module namespace does not bind yields the empty object. *)
Lemma unbound_tool_name_yields_empty_object E (me : nat) (tool_call : ToolCall)
    (arguments : pyval) (text : string) (w : World) :
  module_globals E me !! tc_name tool_call = None ->
  json_loads E (tc_arguments tool_call) = inr arguments ->
  json_dumps E (PDict []) = inr text ->
  handle_one E me tool_call w
  = (Ok (tool_message text tool_call), announced w tool_call).
Proof.
  intros Hname Hloads Hdumps.
  unfold handle_one, bind, print, dispatch, globals_get.
  rewrite Hloads, Hname. cbn. by rewrite Hdumps.
Qed.

(** C2.  A tool name that is bound in the module namespace to data, here the
    list [tools], is looked up, found truthy and called: the call raises
    [TypeError] instead of yielding the empty object. *)
Theorem tool_name_bound_to_data_raises E (me self : nat) (id args : string)
    (v : pyval) (w : World) :
  json_loads E args = inr v ->
  Me_handle_tool_call E me self
    (Some [{| tc_id := id; tc_name := "tools"; tc_arguments := args |}]) w
  = (Raise TypeError, with_trace w (trace w ++ [EvPrint "Tool called: tools"])).
Proof.
  intros Hloads. cbn. unfold handle_one, bind, print, dispatch. cbn.
  rewrite Hloads. cbn. rewrite globals_get_tools. cbn.
  by destruct v.
Qed.

Lemma tool_name_bound_to_data_raises_witness :
  json_loads (samples.sample_env samples.one_tool_then_answer) "{}" = inr (PDict [])
  /\ Me_handle_tool_call (samples.sample_env samples.one_tool_then_answer) 0 0
       (Some [{| tc_id := "call_1"; tc_name := "tools"; tc_arguments := "{}" |}])
       samples.world1
     = (Raise TypeError,
        with_trace samples.world1
          (trace samples.world1 ++ [EvPrint "Tool called: tools"])).
Proof.
  split; [reflexivity |].
  apply (tool_name_bound_to_data_raises
           (samples.sample_env samples.one_tool_then_answer) 0 0 "call_1" "{}"
           (PDict []) samples.world1).
  reflexivity.
Defined.

(** ** After a tool call *)

(** A started iteration first asks the model for a completion of the current
    message list. *)
Lemma chat_body_first_event E (me self messages : nat) (st : ChatLoop)
    (w : World) (client : pyval) (ms : list pyval) :
  getattr self "openai" w = (Ok client, w) ->
  heap w !! messages = Some (OList ms) ->
  exists evs,
    trace (chat_body E me self messages st w).2
    = trace w ++ EvCreate (chat_request ms)
                   (completions_create E (trace w) (chat_request ms)) :: evs.
Proof.
  intros Hclient Hm. rewrite chat_body_cases, Hclient, Hm. cbn [fst].
  destruct (completions_create E (trace w) (chat_request ms)) as [e | resp];
    [by exists [] |].
  destruct (choices resp) as [| choice rest]; [by exists [] |].
  destruct (String.eqb (finish_reason choice) "tool_calls"); [| by exists []].
  destruct (preserves_handle_tool_call E me _ _
              (extends_trace_invariant (trace (arrived w ms (inr resp)))
                 (fun _ => True) (fun _ _ => I))
              self (tool_calls (message choice)) (arrived w ms (inr resp)))
    as (evs & Hevs & _).
  { exists []. by rewrite app_nil_r. }
  exists evs.
  destruct (Me_handle_tool_call E me self (tool_calls (message choice))
              (arrived w ms (inr resp))) as [[results | e |] w2];
    cbn in *; rewrite Hevs; by rewrite <- app_assoc.
Qed.

Lemma chat_loop_first_event E (me self messages fuel : nat) (st : ChatLoop)
    (w : World) (client : pyval) (ms : list pyval) :
  done st = false ->
  getattr self "openai" w = (Ok client, w) ->
  heap w !! messages = Some (OList ms) ->
  exists evs,
    trace (chat_loop E me self messages (S fuel) st w).2
    = trace w ++ EvCreate (chat_request ms)
                   (completions_create E (trace w) (chat_request ms)) :: evs.
Proof.
  intros Hdone Hclient Hm.
  destruct (chat_body_first_event E me self messages st w client ms Hclient Hm)
    as (evs1 & Hevs1).
  unfold chat_loop. cbn. rewrite Hdone. cbn. unfold bind.
  destruct (chat_body E me self messages st w) as [[st1 | e |] w1] eqn:Hbody;
    cbn in Hevs1; try by exists evs1.
  assert (Hloop : preserves (extends_trace (trace w1) (fun _ => True))
                    (chat_loop E me self messages fuel st1)).
  { apply preserves_while_loop. intros st0.
    by apply (preserves_chat_body E me _ _
                (extends_trace_invariant (trace w1) (fun _ => True) (fun _ _ => I))). }
  destruct (Hloop w1) as (evs2 & Hevs2 & _).
  { exists []. by rewrite app_nil_r. }
  exists (evs1 ++ evs2). unfold chat_loop in Hevs2. rewrite Hevs2, Hevs1.
  by rewrite <- app_assoc.
Qed.

(** * Properties of router.py *)

Lemma router_run_tools_pure E (rs : list router.ToolRequest) (w : router.World) :
  (router.run_tools E rs w).2 = w.
Proof.
  revert w. induction rs as [| r rs IH]; intros w; [done |].
  cbn. unfold bind. destruct (router.run_tool E r) as [e | text]; [done |]. cbn.
  specialize (IH w).
  by destruct (router.run_tools E rs w) as [[rest | e |] w1]; cbn in *; subst.
Qed.

Lemma bind_ret_l {W A B} (a : A) (k : A -> M W B) : bind (ret a) k = k a.
Proof. reflexivity. Qed.

(** After the tool node the compiled graph goes to the end, whatever the
    state. *)
Lemma router_after_tools E (state : list router.msg) :
  router.next_node (router.graph E) "tools" state = ret (Some router.END).
Proof. reflexivity. Qed.

Lemma router_after_start E (state : list router.msg) :
  router.next_node (router.graph E) router.START state
  = ret (Some "tool_calling_llm").
Proof. reflexivity. Qed.

Lemma router_after_llm E (state : list router.msg) :
  router.next_node (router.graph E) "tool_calling_llm" state
  = (target <- router.lift (router.tools_condition state) ;; ret (Some target)).
Proof. reflexivity. Qed.

Lemma router_node_llm E :
  router.nodes (router.graph E) !! "tool_calling_llm" = Some (router.tool_calling_llm E).
Proof. reflexivity. Qed.

Lemma router_node_tools E :
  router.nodes (router.graph E) !! "tools" = Some (router.tool_node E).
Proof. reflexivity. Qed.

Lemma router_run_from_end (g : router.StateGraph) (limit : nat)
    (state : list router.msg) :
  router.run_from (S limit) g router.END state = ret state.
Proof. reflexivity. Qed.

Lemma router_run_from_limit (g : router.StateGraph) (node : string)
    (state : list router.msg) :
  router.run_from 0 g node state = raise (LibraryError "GraphRecursionError").
Proof. reflexivity. Qed.

Lemma router_run_from_step (g : router.StateGraph) (limit : nat) (node : string)
    (state : list router.msg) :
  String.eqb node router.END = false ->
  router.run_from (S limit) g node state
  = match router.nodes g !! node with
    | None => raise (LibraryError "ValueError")
    | Some action =>
        update <- action state ;;
        next <- router.next_node g node (state ++ update) ;;
        match next with
        | Some target => router.run_from limit g target (state ++ update)
        | None => router.run_from limit g router.END (state ++ update)
        end
    end.
Proof. intros H. cbn [router.run_from]. by rewrite H. Qed.

(** A run of the graph, case by case.  The model is invoked once.  If it
    fails the run raises; if its reply requests no tool the run ends with
    the reply appended; if it requests tools they are run, their messages
    are appended after the reply, and the run ends. *)
Lemma router_invoke_cases E (state : list router.msg) (w : router.World) :
  router.invoke (router.graph E) state w
  = match router.llm_reply E w state with
    | inl e => (Raise e, router.invoked E w state)
    | inr (router.AIMessage text (request :: requests)) =>
        match router.run_tools E (request :: requests) (router.invoked E w state) with
        | (Ok tool_messages, _) =>
            (Ok ((state ++ [router.AIMessage text (request :: requests)])
                 ++ tool_messages),
             router.invoked E w state)
        | (Raise e, _) => (Raise e, router.invoked E w state)
        | (OutOfFuel, _) => (OutOfFuel, router.invoked E w state)
        end
    | inr reply => (Ok (state ++ [reply]), router.invoked E w state)
    end.
Proof.
  unfold router.invoke. rewrite router_after_start, bind_ret_l.
  unfold router.recursion_limit.
  rewrite router_run_from_step, router_node_llm by reflexivity.
  unfold bind at 1. unfold router.tool_calling_llm. unfold bind at 1.
  assert (Hreply : forall m, router.llm_reply E w state = inr m ->
            exists text requests, m = router.AIMessage text requests).
  { intros m. unfold router.llm_reply.
    destruct (router.llm_invoke E (router.trace w) state) as [e | [text requests]];
      [discriminate |].
    intros H. injection H as <-. by exists text, requests. }
  destruct (router.llm_reply E w state) as [e | reply]; [done |].
  destruct (Hreply reply eq_refl) as (text & requests & ->). cbn [router.lift ret].
  rewrite router_after_llm. unfold router.tools_condition. rewrite last_snoc.
  destruct requests as [| request requests].
  - cbn [router.lift]. rewrite !bind_ret_l. by rewrite router_run_from_end.
  - cbn [router.lift]. rewrite !bind_ret_l.
    rewrite router_run_from_step, router_node_tools by reflexivity.
    unfold router.tool_node at 1. rewrite last_snoc.
    pose proof (router_run_tools_pure E (request :: requests)
                  (router.invoked E w state)) as Hpure.
    unfold bind at 1.
    destruct (router.run_tools E (request :: requests) (router.invoked E w state))
      as [[tool_messages | e |] w1]; cbn in Hpure; by subst w1.
Qed.

(** * Further properties of me_with_tools.py *)

(** ** Keyword arguments *)

Lemma mem_string_spec (k : string) (ks : list string) :
  mem_string k ks = true <-> k ∈ ks.
Proof.
  unfold mem_string. induction ks as [| k' ks IH]; cbn.
  - split; [discriminate | by intros ?%elem_of_nil].
  - rewrite orb_true_iff, IH, String.eqb_eq, elem_of_cons. done.
Qed.

Lemma dict_get_None (k : string) (d : list (string * pyval)) :
  dict_get k d = None <-> k ∉ dict_keys d.
Proof.
  induction d as [| [k' v] d IH]; cbn.
  - split; [intros _ ?%elem_of_nil; done | done].
  - rewrite not_elem_of_cons. destruct (String.eqb k k') eqn:Hk.
    + apply String.eqb_eq in Hk. split; [discriminate | by intros [? _]].
    + apply String.eqb_neq in Hk. rewrite IH. tauto.
Qed.

(** The keyword arguments fit a signature exactly when every key is a
    parameter and every parameter without default is a key. *)
Lemma kwargs_fit_spec (required optional : list string) (kw : list (string * pyval)) :
  kwargs_fit required optional kw = true
  <-> (forall k, k ∈ dict_keys kw -> k ∈ required ++ optional)
      /\ (forall r, r ∈ required -> r ∈ dict_keys kw).
Proof.
  unfold kwargs_fit. rewrite andb_true_iff.
  assert (Hall : forall (f : string -> bool) (P : string -> Prop) l,
            (forall x, f x = true <-> P x) ->
            forallb f l = true <-> forall x, x ∈ l -> P x).
  { intros f P l Hf. induction l as [| x l IH]; cbn.
    - split; [intros _ x ?%elem_of_nil; done | done].
    - rewrite andb_true_iff, IH, Hf. split.
      + intros [Hx Hl] y [-> | Hy]%elem_of_cons; auto.
      + intros H. split; [apply H; left | intros y Hy; apply H; by right]. }
  rewrite (Hall _ (fun k => k ∈ required ++ optional)) by (intros; apply mem_string_spec).
  rewrite (Hall _ (fun r => r ∈ dict_keys kw)) by (intros; apply mem_string_spec).
  done.
Qed.

(** ** Single tool calls *)

Lemma handle_single E (me self : nat) (tool_call : ToolCall) (w : World) :
  Me_handle_tool_call E me self (Some [tool_call]) w
  = match handle_one E me tool_call w with
    | (Ok entry, w') => (Ok [entry], w')
    | (Raise e, w') => (Raise e, w')
    | (OutOfFuel, w') => (OutOfFuel, w')
    end.
Proof.
  cbn. unfold bind. by destruct (handle_one E me tool_call w) as [[entry | e |] w'].
Qed.

Lemma handle_one_dispatch E (me : nat) (tool_call : ToolCall) (arguments : pyval)
    (w : World) :
  json_loads E (tc_arguments tool_call) = inr arguments ->
  handle_one E me tool_call w
  = match dispatch E me tool_call arguments (announced w tool_call) with
    | (Ok result, w') =>
        match json_dumps E result with
        | inr text => (Ok (tool_message text tool_call), w')
        | inl e => (Raise e, w')
        end
    | (Raise e, w') => (Raise e, w')
    | (OutOfFuel, w') => (OutOfFuel, w')
    end.
Proof.
  intros Hloads. unfold handle_one, bind, print, announced. rewrite Hloads. cbn.
  destruct (dispatch E me tool_call arguments _) as [[result | e |] w']; try done.
  by destruct (json_dumps E result).
Qed.

(** X1.  A tool name whose lookup in the module namespace gives nothing, or
    a falsy value, is not called: whatever the arguments decode to, the call
    is answered with the serialisation of the empty object, and nothing but
    the name is printed. *)
Theorem falsy_tool_name_yields_empty_object E (me self : nat) (tool_call : ToolCall)
    (arguments : pyval) (text : string) (w : World) :
  truthy (globals_get E me (tc_name tool_call)) = false ->
  json_loads E (tc_arguments tool_call) = inr arguments ->
  json_dumps E (PDict []) = inr text ->
  Me_handle_tool_call E me self (Some [tool_call]) w
  = (Ok [PDict [("role", PStr "tool"); ("content", PStr text);
                ("tool_call_id", PStr (tc_id tool_call))]],
     with_trace w (trace w ++ [EvPrint ("Tool called: " +:+ tc_name tool_call)])).
Proof.
  intros Hfalsy Hloads Hdumps.
  rewrite handle_single, (handle_one_dispatch E me tool_call arguments w Hloads).
  unfold dispatch. rewrite Hfalsy. cbn. by rewrite Hdumps.
Qed.

Lemma falsy_tool_name_yields_empty_object_witness :
  Me_handle_tool_call (more_samples.env samples.one_tool_then_answer) 0 0
    (Some [more_samples.call "lookup_weather" "[1, 2]"]) samples.world1
  = (Ok [PDict [("role", PStr "tool"); ("content", PStr "{}");
                ("tool_call_id", PStr "call_1")]],
     with_trace samples.world1
       (trace samples.world1 ++ [EvPrint "Tool called: lookup_weather"])).
Proof.
  apply (falsy_tool_name_yields_empty_object
           (more_samples.env samples.one_tool_then_answer) 0 0
           (more_samples.call "lookup_weather" "[1, 2]")
           (PList [PInt 1; PInt 2]) "{}" samples.world1); reflexivity.
Defined.

(** X2.  A call of [record_user_details] whose arguments hold an email and
    at most a name and notes sends one notification, in which a missing name
    reads [Name not provided] and missing notes read [Not provided]; when the
    POST succeeds the call is answered with the serialisation of
    [{"recorded": "ok"}]. *)
Theorem record_user_details_fills_defaults E (me self : nat) (id args : string)
    (kw : list (string * pyval)) (email : pyval) (content : string) (w : World) :
  let tool_call := {| tc_id := id; tc_name := "record_user_details";
                      tc_arguments := args |} in
  let line :=
    "Recording interest from "
    +:+ fmt E (kwarg "name" (PStr "Name not provided") kw)
    +:+ " with email " +:+ fmt E email
    +:+ " and notes: " +:+ fmt E (kwarg "notes" (PStr "Not provided") kw) in
  let payload := PDict [("token", pushover_token E); ("user", pushover_user E);
                        ("message", PStr line)] in
  let printed := trace w ++ [EvPrint "Tool called: record_user_details";
                             EvPrint ("Pushing notification: " +:+ line)] in
  json_loads E args = inr (PDict kw) ->
  dict_get "email" kw = Some email ->
  (forall k, k ∈ dict_keys kw -> k ∈ ["email"; "name"; "notes"]) ->
  requests_post E printed (pushover_url E) payload = inr tt ->
  json_dumps E (PDict [("recorded", PStr "ok")]) = inr content ->
  Me_handle_tool_call E me self (Some [tool_call]) w
  = (Ok [PDict [("role", PStr "tool"); ("content", PStr content);
                ("tool_call_id", PStr id)]],
     with_trace w (printed ++ [EvPost (pushover_url E) payload (inr tt)])).
Proof.
  intros tool_call line payload printed Hloads Hemail Hkeys Hpost Hdumps.
  assert (Hfit : kwargs_fit ["email"] ["name"; "notes"] kw = true).
  { apply kwargs_fit_spec. split; [exact Hkeys |].
    intros r ->%list_elem_of_singleton.
    destruct (decide ("email" ∈ dict_keys kw)) as [Hin | Hnot]; [done |].
    apply dict_get_None in Hnot. congruence. }
  rewrite handle_single, (handle_one_dispatch E me tool_call (PDict kw) w Hloads).
  unfold dispatch. rewrite globals_get_record_user_details. cbn [truthy call_tool].
  cbn [call_function]. rewrite Hfit.
  unfold record_user_details.
  replace (kwarg "email" PNone kw) with email by (unfold kwarg; by rewrite Hemail).
  fold line.
  unfold push, bind, print, external, announced. cbn [trace with_trace heap].
  fold payload. rewrite <- !app_assoc. cbn [app].
  subst tool_call printed. cbn [tc_name tc_id fmt tool_message] in *.
  change ("Tool called: " +:+ "record_user_details")
    with "Tool called: record_user_details".
  rewrite Hpost. cbn. rewrite Hdumps. cbn. by rewrite <- !app_assoc.
Qed.

Lemma record_user_details_fills_defaults_witness :
  Me_handle_tool_call (more_samples.env samples.one_tool_then_answer) 0 0
    (Some [more_samples.call "record_user_details" more_samples.args_email])
    samples.world1
  = (Ok [PDict [("role", PStr "tool");
                ("content", PStr ("{" +:+ samples.dq +:+ "recorded" +:+ samples.dq
                                  +:+ ": " +:+ samples.dq +:+ "ok" +:+ samples.dq
                                  +:+ "}"));
                ("tool_call_id", PStr "call_1")]],
     with_trace samples.world1
       ([EvPrint "Tool called: record_user_details";
         EvPrint "Pushing notification: Recording interest from Name not provided with email ada@example.org and notes: Not provided"]
        ++ [EvPost (PStr "https://push.example/1/messages.json")
              (PDict [("token", PStr "secret"); ("user", PStr "secret");
                      ("message", PStr "Recording interest from Name not provided with email ada@example.org and notes: Not provided")])
              (inr tt)])).
Proof.
  apply (record_user_details_fills_defaults
           (more_samples.env samples.one_tool_then_answer) 0 0 "call_1"
           more_samples.args_email [("email", PStr "ada@example.org")]
           (PStr "ada@example.org") _ samples.world1); try reflexivity.
  intros k ->%list_elem_of_singleton. apply elem_of_cons; by left.
Defined.

(** X3.  A call of one of the two schema tools whose arguments do not fit
    its signature (they are no JSON object, the required parameter is
    missing, or a key is no parameter) raises [TypeError] when the function
    is called: the name has been printed, no notification is sent. *)
Theorem schema_tools_reject_bad_arguments E (me self : nat) (id args : string)
    (arguments : pyval) (w : World) :
  json_loads E args = inr arguments ->
  ((forall kw, arguments = PDict kw ->
      dict_get "email" kw = None
      \/ exists k, k ∈ dict_keys kw /\ k ∉ ["email"; "name"; "notes"]) ->
   Me_handle_tool_call E me self
     (Some [{| tc_id := id; tc_name := "record_user_details";
               tc_arguments := args |}]) w
   = (Raise TypeError,
      with_trace w (trace w ++ [EvPrint "Tool called: record_user_details"])))
  /\ ((forall kw, arguments = PDict kw ->
         dict_get "question" kw = None
         \/ exists k, k ∈ dict_keys kw /\ k <> "question") ->
      Me_handle_tool_call E me self
        (Some [{| tc_id := id; tc_name := "record_unknown_question";
                  tc_arguments := args |}]) w
      = (Raise TypeError,
         with_trace w (trace w ++ [EvPrint "Tool called: record_unknown_question"]))).
Proof.
  intros Hloads. split; intros Hbad.
  - set (tool_call := {| tc_id := id; tc_name := "record_user_details";
                         tc_arguments := args |}).
    rewrite handle_single,
      (handle_one_dispatch E me tool_call arguments w Hloads).
    unfold dispatch. cbn [tc_name tool_call]. rewrite globals_get_record_user_details.
    cbn [truthy]. destruct arguments as [| | | | | | kw | | | | | |]; try done.
    unfold call_tool. cbn [call_function].
    destruct (kwargs_fit ["email"] ["name"; "notes"] kw) eqn:Hfit; [| done].
    apply kwargs_fit_spec in Hfit as [Hkeys Hreq].
    destruct (Hbad kw eq_refl) as [Hnone | (k & Hk & Hnot)].
    + apply dict_get_None in Hnone. destruct Hnone. apply Hreq.
      by apply list_elem_of_singleton.
    + destruct Hnot. by apply Hkeys.
  - set (tool_call := {| tc_id := id; tc_name := "record_unknown_question";
                         tc_arguments := args |}).
    rewrite handle_single,
      (handle_one_dispatch E me tool_call arguments w Hloads).
    unfold dispatch. cbn [tc_name tool_call].
    rewrite globals_get_record_unknown_question.
    cbn [truthy]. destruct arguments as [| | | | | | kw | | | | | |]; try done.
    unfold call_tool. cbn [call_function].
    destruct (kwargs_fit ["question"] [] kw) eqn:Hfit; [| done].
    apply kwargs_fit_spec in Hfit as [Hkeys Hreq].
    destruct (Hbad kw eq_refl) as [Hnone | (k & Hk & Hnot)].
    + apply dict_get_None in Hnone. destruct Hnone. apply Hreq.
      by apply list_elem_of_singleton.
    + destruct Hnot. by apply list_elem_of_singleton, Hkeys.
Qed.

Lemma schema_tools_reject_bad_arguments_witness :
  Me_handle_tool_call (more_samples.env samples.one_tool_then_answer) 0 0
    (Some [more_samples.call "record_user_details" "{}"]) samples.world1
  = (Raise TypeError,
     with_trace samples.world1
       (trace samples.world1 ++ [EvPrint "Tool called: record_user_details"]))
  /\ Me_handle_tool_call (more_samples.env samples.one_tool_then_answer) 0 0
       (Some [more_samples.call "record_unknown_question" "{}"]) samples.world1
     = (Raise TypeError,
        with_trace samples.world1
          (trace samples.world1 ++ [EvPrint "Tool called: record_unknown_question"])).
Proof.
  destruct (schema_tools_reject_bad_arguments
              (more_samples.env samples.one_tool_then_answer) 0 0 "call_1" "{}"
              (PDict []) samples.world1 eq_refl) as [H1 H2].
  split; [apply H1 | apply H2]; intros kw [= <-]; by left.
Defined.

(** X4.  The function [push] is itself reachable as a tool: a call named
    [push] with a message sends that message as a notification although
    the tool list does not offer it, and is answered with the serialisation
    of [None]. *)
Theorem push_is_callable_as_tool E (me self : nat) (id args : string)
    (text : pyval) (content : string) (w : World) :
  let payload := PDict [("token", pushover_token E); ("user", pushover_user E);
                        ("message", text)] in
  let printed := trace w ++ [EvPrint "Tool called: push";
                             EvPrint ("Pushing notification: " +:+ fmt E text)] in
  json_loads E args = inr (PDict [("message", text)]) ->
  requests_post E printed (pushover_url E) payload = inr tt ->
  json_dumps E PNone = inr content ->
  Me_handle_tool_call E me self
    (Some [{| tc_id := id; tc_name := "push"; tc_arguments := args |}]) w
  = (Ok [PDict [("role", PStr "tool"); ("content", PStr content);
                ("tool_call_id", PStr id)]],
     with_trace w (printed ++ [EvPost (pushover_url E) payload (inr tt)])).
Proof.
  intros payload printed Hloads Hpost Hdumps.
  set (tool_call := {| tc_id := id; tc_name := "push"; tc_arguments := args |}).
  rewrite handle_single, (handle_one_dispatch E me tool_call _ w Hloads).
  unfold dispatch. cbn [tc_name tool_call].
  change (globals_get E me "push") with (PFunction Fpush).
  cbn [truthy call_tool call_function].
  change (kwargs_fit ["message"] [] [("message", text)]) with true. cbv iota.
  change (kwarg "message" PNone [("message", text)]) with text.
  unfold push, bind, print, external, announced. cbn [trace with_trace heap].
  fold payload. rewrite <- !app_assoc. cbn [app tc_name tc_id tool_call tool_message].
  subst printed.
  change ("Tool called: " +:+ "push") with "Tool called: push".
  rewrite Hpost. cbn. rewrite Hdumps. cbn. by rewrite <- !app_assoc.
Qed.

Lemma push_is_callable_as_tool_witness :
  Me_handle_tool_call (more_samples.env samples.one_tool_then_answer) 0 0
    (Some [more_samples.call "push" more_samples.args_message]) samples.world1
  = (Ok [PDict [("role", PStr "tool"); ("content", PStr "null");
                ("tool_call_id", PStr "call_1")]],
     with_trace samples.world1
       ([EvPrint "Tool called: push"; EvPrint "Pushing notification: hello"]
        ++ [EvPost (PStr "https://push.example/1/messages.json")
              (PDict [("token", PStr "secret"); ("user", PStr "secret");
                      ("message", PStr "hello")])
              (inr tt)])).
Proof.
  apply (push_is_callable_as_tool
           (more_samples.env samples.one_tool_then_answer) 0 0 "call_1"
           more_samples.args_message (PStr "hello") "null" samples.world1);
    reflexivity.
Defined.

(** ** Lists of tool calls *)

Lemma handle_loop_acc E (me : nat) (calls : list ToolCall) (acc : list pyval)
    (w : World) :
  handle_loop E me calls acc w
  = match handle_loop E me calls [] w with
    | (Ok results, w') => (Ok (acc ++ results), w')
    | (Raise e, w') => (Raise e, w')
    | (OutOfFuel, w') => (OutOfFuel, w')
    end.
Proof.
  revert acc w. induction calls as [| c calls IH]; intros acc w; cbn.
  - by rewrite app_nil_r.
  - unfold bind. destruct (handle_one E me c w) as [[entry | e |] w1]; try done.
    rewrite (IH (acc ++ [entry])), (IH ([] ++ [entry])).
    destruct (handle_loop E me calls [] w1) as [[results | e |] w2]; try done.
    by rewrite <- app_assoc.
Qed.

(** X5.  Handling a list of tool calls is handling its parts one after the
    other: the empty list gives the empty list and changes nothing, and the
    calls of [calls1 ++ calls2] are handled as [calls1], then [calls2] from
    the world that [calls1] left, with the entries concatenated.  When a
    call raises, the later calls are not handled and the entries of the
    earlier ones are lost, while what the earlier ones did stays done. *)
Theorem handle_tool_call_app E (me self : nat) (calls1 calls2 : list ToolCall)
    (w : World) :
  Me_handle_tool_call E me self (Some []) w = (Ok [], w)
  /\ Me_handle_tool_call E me self (Some (calls1 ++ calls2)) w
     = match Me_handle_tool_call E me self (Some calls1) w with
       | (Ok results1, w1) =>
           match Me_handle_tool_call E me self (Some calls2) w1 with
           | (Ok results2, w2) => (Ok (results1 ++ results2), w2)
           | (Raise e, w2) => (Raise e, w2)
           | (OutOfFuel, w2) => (OutOfFuel, w2)
           end
       | (Raise e, w1) => (Raise e, w1)
       | (OutOfFuel, w1) => (OutOfFuel, w1)
       end.
Proof.
  split; [done |]. cbn [Me_handle_tool_call].
  generalize (@nil pyval) at 1 2 as acc. revert w.
  induction calls1 as [| c calls1 IH]; intros w acc; cbn [app handle_loop].
  - cbn. apply handle_loop_acc.
  - unfold bind.
    destruct (handle_one E me c w) as [[entry | e |] w1]; [apply IH | done | done].
Qed.

(** ** What tool handling sends *)

Lemma count_posts_app (evs1 evs2 : list event) :
  count_posts (evs1 ++ evs2) = count_posts evs1 + count_posts evs2.
Proof.
  unfold count_posts. induction evs1 as [| ev evs1 IH]; [done |].
  cbn. destruct (is_post ev); cbn; by rewrite IH.
Qed.

Lemma emits_silent {A} (n : nat) (m : M World A) :
  (forall w, trace (m w).2 = trace w) -> emits_posts n m.
Proof.
  intros Hm w. exists []. rewrite app_nil_r.
  split; [apply Hm |]. split; [constructor | cbn; lia].
Qed.

Lemma emits_mono {A} (n n' : nat) (m : M World A) :
  n <= n' -> emits_posts n m -> emits_posts n' m.
Proof.
  intros Hle Hm w. destruct (Hm w) as (evs & Ht & Hall & Hn).
  exists evs. repeat split; try done. lia.
Qed.

Lemma emits_bind {A B} (n1 n2 : nat) (m : M World A) (k : A -> M World B) :
  emits_posts n1 m -> (forall a, emits_posts n2 (k a)) ->
  emits_posts (n1 + n2) (bind m k).
Proof.
  intros Hm Hk w. destruct (Hm w) as (evs1 & Ht1 & Hall1 & Hn1). unfold bind.
  destruct (m w) as [[a | e |] w1]; cbn in *.
  - destruct (Hk a w1) as (evs2 & Ht2 & Hall2 & Hn2). exists (evs1 ++ evs2).
    split; [by rewrite Ht2, Ht1, app_assoc |].
    split; [by apply Forall_app |]. rewrite count_posts_app. lia.
  - exists evs1. repeat split; try done. lia.
  - exists evs1. repeat split; try done. lia.
Qed.

Lemma emits_ret {A} (n : nat) (a : A) : emits_posts n (ret a).
Proof. by apply emits_silent. Qed.

Lemma emits_raise {A} (n : nat) (e : exn) : emits_posts n (@raise World A e).
Proof. by apply emits_silent. Qed.

Lemma emits_lift {A} (n : nat) (r : exn + A) : emits_posts n (lift r).
Proof. destruct r; [apply emits_raise | apply emits_ret]. Qed.

Lemma emits_event {A} (n : nat) (ask : list event -> exn + A)
    (ev : exn + A -> event) :
  (forall r, tool_event (ev r)) ->
  (forall r, count_posts [ev r] <= n) ->
  emits_posts n (external ask ev).
Proof.
  intros Hev Hn w. unfold external. exists [ev (ask (trace w))].
  split; [by destruct (ask (trace w)) |].
  split; [by repeat constructor | apply Hn].
Qed.

Lemma emits_print (line : string) : emits_posts 0 (print line).
Proof.
  intros w. exists [EvPrint line]. split; [done |].
  split; [by repeat constructor | done].
Qed.

Lemma emits_for_each {A} (xs : list A) (body : A -> M World unit) :
  (forall x, emits_posts 0 (body x)) -> emits_posts 0 (for_each xs body).
Proof.
  intros Hbody. induction xs as [| x xs IH]; cbn.
  - apply emits_ret.
  - apply (emits_bind 0 0); [apply Hbody | intros _; apply IH].
Qed.

Lemma emits_push E (message : pyval) : emits_posts 1 (push E message).
Proof.
  unfold push. apply (emits_bind 0 1); [apply emits_print | intros _].
  apply (emits_bind 1 0); [by apply emits_event | intros _; apply emits_ret].
Qed.

Lemma emits_call_function E (f : func) (kw : list (string * pyval)) :
  emits_posts 1 (call_function E f kw).
Proof.
  destruct f; cbn.
  - destruct (kwargs_fit _ _ kw); [apply emits_push | apply emits_raise].
  - destruct (kwargs_fit _ _ kw); [| apply emits_raise].
    apply (emits_bind 1 0); [apply emits_push | intros _; apply emits_ret].
  - destruct (kwargs_fit _ _ kw); [| apply emits_raise].
    apply (emits_bind 1 0); [apply emits_push | intros _; apply emits_ret].
Qed.

Lemma emits_Me_new E : emits_posts 0 (Me_new E).
Proof.
  unfold Me_new. apply (emits_bind 0 0); [by apply emits_silent | intros self].
  apply (emits_bind 0 0); [| intros _; apply emits_ret].
  unfold Me_init.
  apply (emits_bind 0 0); [by apply emits_event | intros _].
  apply (emits_bind 0 0); [apply emits_silent, setattr_trace | intros _].
  apply (emits_bind 0 0); [apply emits_silent, setattr_trace | intros _].
  apply (emits_bind 0 0); [by apply emits_event | intros npages].
  apply (emits_bind 0 0); [apply emits_silent, setattr_trace | intros _].
  apply (emits_bind 0 0).
  - apply emits_for_each. intros page.
    apply (emits_bind 0 0); [by apply emits_event | intros text].
    destruct (truthy (PStr text)); [| apply emits_ret].
    apply (emits_bind 0 0).
    + apply emits_silent. intros w. by rewrite getattr_world.
    + intros bio. destruct bio; try apply emits_raise.
      apply emits_silent, setattr_trace.
  - intros _.
    apply (emits_bind 0 0); [by apply emits_event | intros summary].
    apply emits_silent, setattr_trace.
Qed.

Lemma emits_handle_one E (me : nat) (tool_call : ToolCall) :
  emits_posts 1 (handle_one E me tool_call).
Proof.
  unfold handle_one.
  apply (emits_bind 0 1); [apply emits_lift | intros arguments].
  apply (emits_bind 0 1); [apply emits_print | intros _].
  apply (emits_bind 1 0); [| intros result].
  - unfold dispatch. destruct (truthy _); [| apply emits_ret].
    unfold call_tool. destruct arguments; try apply emits_raise.
    destruct (globals_get E me (tc_name tool_call)); try apply emits_raise.
    + apply emits_call_function.
    + destruct d; [| apply emits_raise].
      apply (emits_mono 0); [lia |].
      apply (emits_bind 0 0); [apply emits_Me_new | intros l; apply emits_ret].
    + apply emits_lift.
  - apply (emits_bind 0 0); [apply emits_lift | intros text; apply emits_ret].
Qed.

Lemma emits_handle_loop E (me : nat) (calls : list ToolCall) (acc : list pyval) :
  emits_posts (List.length calls) (handle_loop E me calls acc).
Proof.
  revert acc. induction calls as [| c calls IH]; intros acc; cbn [handle_loop].
  - apply emits_ret.
  - apply (emits_bind 1 (List.length calls));
      [apply emits_handle_one | intros entry; apply IH].
Qed.

Lemma emits_handle_tool_call E (me self : nat) (calls : option (list ToolCall)) :
  emits_posts (List.length (default [] calls)) (Me_handle_tool_call E me self calls).
Proof.
  destruct calls as [calls |]; [apply emits_handle_loop | apply emits_raise].
Qed.

(** X6.  Handling tool calls never asks the model for a completion, and it
    sends at most one notification POST per tool call, whatever the calls
    name and whatever the outcome. *)
Theorem tool_handling_sends_at_most_one_post_per_call E (me self : nat)
    (calls : list ToolCall) (w : World) :
  exists evs,
    trace (Me_handle_tool_call E me self (Some calls) w).2 = trace w ++ evs
    /\ (forall req r, EvCreate req r ∉ evs)
    /\ count_posts evs <= List.length calls.
Proof.
  destruct (emits_handle_loop E me calls [] w) as (evs & Ht & Hall & Hn).
  exists evs. split; [done |]. split; [| done].
  intros req r Hin. rewrite Forall_forall in Hall. exact (Hall _ Hin).
Qed.

(** ** Failures during a chat *)

Lemma list_extend_trace (l : nat) (xs : list pyval) (w : World) :
  trace (list_extend l xs w).2 = trace w.
Proof.
  unfold list_extend. by destruct (heap w !! l) as [[ys | attrs] |].
Qed.

Lemma uncaught_lift {A} (r : exn + A) : uncaught (lift r).
Proof. destruct r; [apply uncaught_raise | apply uncaught_ret]. Qed.

Lemma uncaught_while_loop {S} (fuel : nat) (cond : S -> bool)
    (body : S -> M World S) (s : S) :
  (forall s, uncaught (body s)) -> uncaught (while_loop fuel cond body s).
Proof.
  intros Hbody. revert s. induction fuel as [| fuel IH]; intros s; cbn.
  - destruct (cond s); [by apply uncaught_silent | apply uncaught_ret].
  - destruct (cond s); [| apply uncaught_ret].
    apply uncaught_bind; [apply Hbody | apply IH].
Qed.

Lemma uncaught_call_function E (f : func) (kw : list (string * pyval)) :
  uncaught (call_function E f kw).
Proof.
  destruct f; cbn.
  - destruct (kwargs_fit _ _ kw); [apply uncaught_push | apply uncaught_raise].
  - destruct (kwargs_fit _ _ kw); [| apply uncaught_raise].
    apply uncaught_bind; [apply uncaught_push | intros _; apply uncaught_ret].
  - destruct (kwargs_fit _ _ kw); [| apply uncaught_raise].
    apply uncaught_bind; [apply uncaught_push | intros _; apply uncaught_ret].
Qed.

Lemma uncaught_handle_one E (me : nat) (tool_call : ToolCall) :
  uncaught (handle_one E me tool_call).
Proof.
  unfold handle_one.
  apply uncaught_bind; [apply uncaught_lift | intros arguments].
  apply uncaught_bind; [apply uncaught_print | intros _].
  apply uncaught_bind; [| intros result].
  - unfold dispatch. destruct (truthy _); [| apply uncaught_ret].
    unfold call_tool. destruct arguments; try apply uncaught_raise.
    destruct (globals_get E me (tc_name tool_call)); try apply uncaught_raise.
    + apply uncaught_call_function.
    + destruct d; [| apply uncaught_raise].
      apply uncaught_bind; [apply uncaught_Me_new | intros l; apply uncaught_ret].
    + apply uncaught_lift.
  - apply uncaught_bind; [apply uncaught_lift | intros text; apply uncaught_ret].
Qed.

Lemma uncaught_handle_tool_call E (me self : nat) (calls : option (list ToolCall)) :
  uncaught (Me_handle_tool_call E me self calls).
Proof.
  destruct calls as [calls |]; [| apply uncaught_raise]. cbn.
  generalize (@nil pyval) as acc.
  induction calls as [| c calls IH]; intros acc; cbn [handle_loop].
  - apply uncaught_ret.
  - apply uncaught_bind; [apply uncaught_handle_one | intros entry; apply IH].
Qed.

Lemma uncaught_chat_body E (me self messages : nat) (st : ChatLoop) :
  uncaught (chat_body E me self messages st).
Proof.
  unfold chat_body.
  apply uncaught_bind;
    [apply uncaught_silent; intros w; by rewrite getattr_world | intros client].
  apply uncaught_bind;
    [apply uncaught_silent; intros w; by rewrite read_list_world | intros msgs].
  apply uncaught_bind; [by apply uncaught_external | intros resp].
  apply uncaught_bind;
    [destruct (choices resp); [apply uncaught_raise | apply uncaught_ret]
    | intros choice].
  destruct (String.eqb _ _); [| apply uncaught_ret].
  apply uncaught_bind; [apply uncaught_handle_tool_call | intros results].
  apply uncaught_bind; [apply uncaught_silent, list_extend_trace | intros _].
  apply uncaught_bind; [apply uncaught_silent, list_extend_trace | intros _].
  apply uncaught_ret.
Qed.

(** X7.  Neither [handle_tool_call] nor [chat] handles a failure of the
    outside: when a completion request, a notification POST or a file read
    raises during a run, that call is the last event of the run, nothing is
    retried, and the exception is the outcome of the run. *)
Theorem chat_and_tool_handling_propagate_failures E (me self : nat) :
  (forall calls, uncaught (Me_handle_tool_call E me self calls))
  /\ (forall fuel question history,
        uncaught (Me_chat E me fuel self question history)).
Proof.
  split; [apply uncaught_handle_tool_call |].
  intros fuel question history. unfold Me_chat.
  apply uncaught_bind;
    [apply uncaught_silent; intros w; by rewrite system_prompt_world | intros prompt].
  apply uncaught_bind;
    [apply uncaught_silent; intros w; by rewrite read_list_world | intros hist].
  apply uncaught_bind; [by apply uncaught_silent | intros messages].
  apply uncaught_bind.
  - apply uncaught_while_loop. intros st. apply uncaught_chat_body.
  - intros st. unfold chat_return. destruct (response st); [| apply uncaught_ret].
    apply uncaught_bind;
      [destruct (choices c); [apply uncaught_raise | apply uncaught_ret]
      | intros choice; apply uncaught_ret].
Qed.

(** A chat whose completion request is refused: one request, then the
    exception. *)
Example chat_refused :
  let run := Me_chat more_samples.refusing_env 0 5 0 (PStr "Hi") 1 samples.world1 in
  run.1 = Raise (LibraryError "RateLimitError")
  /\ List.length (trace run.2) = 1.
Proof. vm_compute. split; reflexivity. Qed.

(** ** The requests of a chat *)

Lemma requests_of_app (evs1 evs2 : list event) :
  requests_of (evs1 ++ evs2) = requests_of evs1 ++ requests_of evs2.
Proof.
  induction evs1 as [| ev evs1 IH]; [done |].
  destruct ev; cbn; by rewrite ?IH.
Qed.

Lemma requests_of_tool_events (evs : list event) :
  Forall tool_event evs -> requests_of evs = [].
Proof.
  induction 1 as [| ev evs Hev _ IH]; [done |]. by destruct ev.
Qed.

Lemma starting_with_extends (ms ms' : list pyval) (reqs : list (list pyval)) :
  ms `prefix_of` ms' -> starting_with ms' reqs -> extending ms reqs.
Proof.
  intros Hpre. destruct reqs as [| r rest]; [done |]. cbn.
  intros [-> Hrest]. by split.
Qed.

(** The loop asks for completions of message lists that start with the
    current list and extend one another. *)
Lemma chat_loop_requests E (me self messages fuel : nat) (st : ChatLoop)
    (w : World) (ms : list pyval) :
  heap w !! messages = Some (OList ms) ->
  exists evs,
    trace (chat_loop E me self messages fuel st w).2 = trace w ++ evs
    /\ starting_with ms (requests_of evs).
Proof.
  revert st w ms. induction fuel as [| fuel IH]; intros st w ms Hm;
    unfold chat_loop; cbn [while_loop]; destruct (negb (done st)) eqn:Hcond;
    try (exists []; by rewrite app_nil_r).
  unfold bind. rewrite chat_body_cases, Hm.
  destruct (getattr self "openai" w).1; try (exists []; by rewrite app_nil_r).
  destruct (completions_create E (trace w) (chat_request ms)) as [e | resp] eqn:Hcreate;
    [by exists [EvCreate (chat_request ms) (inl e)] |].
  destruct (choices resp) as [| choice rest];
    [by exists [EvCreate (chat_request ms) (inr resp)] |].
  destruct (String.eqb (finish_reason choice) "tool_calls").
  - destruct (emits_handle_tool_call E me self (tool_calls (message choice))
                (arrived w ms (inr resp))) as (evs1 & Ht1 & Hall1 & _).
    pose proof (handle_tool_call_keeps_cell E me self (tool_calls (message choice))
                  messages (OList ms) (arrived w ms (inr resp)) Hm) as Hm2.
    destruct (Me_handle_tool_call E me self (tool_calls (message choice))
                (arrived w ms (inr resp))) as [[results | e |] w2];
      cbn [fst snd] in Ht1, Hm2.
    + set (ms' := ms ++ PMessage (message choice) :: results).
      destruct (IH {| done := done st; response := Some resp |}
                  (with_heap w2 (<[messages := OList ms']> (heap w2))) ms')
        as (evs2 & Ht2 & Hstart2).
      { cbn. by rewrite lookup_insert_eq. }
      exists (EvCreate (chat_request ms) (inr resp) :: evs1 ++ evs2).
      unfold chat_loop in Ht2. rewrite Ht2. cbn [trace with_heap].
      rewrite Ht1. cbn [trace arrived with_trace].
      split; [by rewrite <- !app_assoc |].
      cbn [requests_of rq_messages chat_request starting_with].
      split; [done |]. rewrite requests_of_app, (requests_of_tool_events evs1 Hall1).
      cbn [app]. apply (starting_with_extends ms ms'); [| done].
      by apply prefix_app_r.
    + exists (EvCreate (chat_request ms) (inr resp) :: evs1). cbn [snd].
      rewrite Ht1. cbn [trace arrived with_trace].
      split; [by rewrite <- !app_assoc |].
      cbn [requests_of rq_messages chat_request starting_with].
      by rewrite (requests_of_tool_events evs1 Hall1).
    + exists (EvCreate (chat_request ms) (inr resp) :: evs1). cbn [snd].
      rewrite Ht1. cbn [trace arrived with_trace].
      split; [by rewrite <- !app_assoc |].
      cbn [requests_of rq_messages chat_request starting_with].
      by rewrite (requests_of_tool_events evs1 Hall1).
  - exists [EvCreate (chat_request ms) (inr resp)].
    by destruct fuel.
Qed.

(** X8.  The requests of a chat.  Every chat completion request of a run
    carries the messages of the request before it followed by further
    messages; the first request carries the system prompt, then the
    caller's history in its order, then the user's message.  With fuel for
    one iteration and a client on the instance, that first request is
    sent. *)
Theorem chat_requests_extend_one_another E (me fuel self : nat) (question : pyval)
    (history : nat) (w : World) (prompt : string) (hist : list pyval) :
  Me_system_prompt E self w = (Ok prompt, w) ->
  heap w !! history = Some (OList hist) ->
  exists evs,
    trace (Me_chat E me fuel self question history w).2 = trace w ++ evs
    /\ starting_with (first_messages prompt hist question) (requests_of evs)
    /\ (0 < fuel ->
        (exists client, getattr self "openai" w = (Ok client, w)) ->
        exists rest,
          requests_of evs = first_messages prompt hist question :: rest).
Proof.
  intros Hprompt Hhist. unfold Me_chat.
  rewrite (bind_Ok _ _ _ _ _ Hprompt).
  assert (Hread : read_list history w = (Ok hist, w))
    by (unfold read_list; by rewrite Hhist).
  rewrite (bind_Ok _ _ _ _ _ Hread).
  fold (first_messages prompt hist question).
  set (ms := first_messages prompt hist question).
  set (l := fresh (dom (heap w))).
  set (w1 := with_heap w (<[l := OList ms]> (heap w))).
  assert (Halloc : alloc (OList ms) w = (Ok l, w1)) by done.
  rewrite (bind_Ok _ _ _ _ _ Halloc).
  assert (Hm : heap w1 !! l = Some (OList ms))
    by (cbn; by rewrite lookup_insert_eq).
  destruct (chat_loop_requests E me self l fuel
              {| done := false; response := None |} w1 ms Hm)
    as (evs & Ht & Hstart).
  assert (Hret : forall st w2, trace (chat_return st w2).2 = trace w2).
  { intros st w2. unfold chat_return. destruct (response st) as [resp |]; [| done].
    unfold bind. by destruct (choices resp). }
  exists evs. split; [| split; [done |]].
  - unfold bind at 1.
    destruct (chat_loop E me self l fuel {| done := false; response := None |} w1)
      as [[st | e |] w2]; cbn [snd] in Ht |- *; try done.
    by rewrite Hret.
  - intros Hfuel (client & Hclient). destruct fuel as [| fuel]; [lia |].
    assert (Hclient1 : getattr self "openai" w1 = (Ok client, w1)).
    { apply getattr_Ok_inv in Hclient as (attrs & Hself & Hattr & _).
      unfold getattr, w1. cbn. rewrite lookup_insert_ne.
      - by rewrite Hself, Hattr.
      - intros Heq. pose proof (fresh_not_allocated (heap w)) as Hfresh.
        fold l in Hfresh. rewrite Heq in Hfresh. congruence. }
    destruct (chat_loop_first_event E me self l fuel
                {| done := false; response := None |} w1 client ms eq_refl
                Hclient1 Hm) as (evs' & Ht').
    rewrite Ht in Ht'. apply app_inv_head in Ht'. subst evs.
    by eexists.
Qed.

Lemma chat_requests_extend_one_another_witness :
  exists evs,
    trace samples.sample_chat.2 = trace samples.world1 ++ evs
    /\ starting_with
         (first_messages
            (prompt_text (samples.sample_env samples.one_tool_then_answer)
               (PStr "Ypatios Chaniotakos") (PStr "I build things.")
               (PStr "Engineer. Athens."))
            [] (PStr "What is your shoe size?"))
         (requests_of evs)
    /\ (0 < 5 ->
        (exists client, getattr 0 "openai" samples.world1 = (Ok client, samples.world1)) ->
        exists rest,
          requests_of evs
          = first_messages
              (prompt_text (samples.sample_env samples.one_tool_then_answer)
                 (PStr "Ypatios Chaniotakos") (PStr "I build things.")
                 (PStr "Engineer. Athens."))
              [] (PStr "What is your shoe size?") :: rest).
Proof.
  apply (chat_requests_extend_one_another
           (samples.sample_env samples.one_tool_then_answer) 0 5 0
           (PStr "What is your shoe size?") 1 samples.world1); reflexivity.
Defined.

(** ** The constructor *)

Lemma extracted_text_extract_events (pdf_path : string) (page : nat)
    (texts : list string) :
  extracted_text (extract_events pdf_path page texts) = concat_texts texts.
Proof.
  revert page. induction texts as [| text texts IH]; intros page; [done |].
  cbn. by rewrite IH.
Qed.

(** The loop over the pages extracts the pages in order, each once. *)
Lemma pages_loop_events E (self : nat) (pdf_path : string) (first n : nat)
    (w w' : World) :
  for_each (seq first n) (fun page =>
    text <- external (fun t => extract_text E t pdf_path page)
                     (EvExtractText pdf_path page) ;;
    if truthy (PStr text)
    then
      bio <- getattr self "bio" ;;
      match bio with
      | PStr b => setattr self "bio" (PStr (b +:+ text))
      | _ => raise TypeError
      end
    else ret tt) w = (Ok tt, w') ->
  exists texts,
    List.length texts = n
    /\ trace w' = trace w ++ extract_events pdf_path first texts.
Proof.
  revert first w. induction n as [| n IH]; intros first w Hrun.
  - injection Hrun as <-. exists []. by rewrite app_nil_r.
  - cbn [seq for_each] in Hrun.
    apply bind_Ok_inv in Hrun as ([] & w1 & Hstep & Hrun).
    apply bind_Ok_inv in Hstep as (text & w0 & Hext & Hstep).
    apply external_Ok_inv in Hext as (Hask & ->).
    assert (Htrace : trace w1 = trace w ++ [EvExtractText pdf_path first (inr text)]).
    { destruct (truthy (PStr text)).
      - apply bind_Ok_inv in Hstep as (bio & w0 & Hget & Hset).
        apply getattr_Ok_inv in Hget as (attrs & _ & _ & ->).
        destruct bio; try discriminate.
        by apply setattr_Ok_inv in Hset as (attrs0 & _ & ->).
      - by injection Hstep as <-. }
    apply IH in Hrun as (texts & Hlen & Ht).
    exists (text :: texts). split; [cbn; by rewrite Hlen |].
    rewrite Ht, Htrace, <- app_assoc. done.
Qed.

(** X9.  A successful construction of [Me] has created the client, opened
    the PDF [data/chaniotakos.pdf] beside the script, extracted the text of
    every page once, in page order, and then read [data/summary.txt]; the
    new instance holds the concatenation of the page texts as [bio] and the
    text of the summary file as [summary]. *)
Theorem constructor_reads_pages_in_order E (w : World) (self : nat) (w' : World) :
  Me_new E w = (Ok self, w') ->
  let data := path_join (path_dirname (dunder_file E)) "data" in
  exists texts summary attrs,
    trace w'
    = trace w
      ++ [EvOpenAI (inr tt);
          EvPdfReader (path_join data "chaniotakos.pdf") (inr (List.length texts))]
      ++ extract_events (path_join data "chaniotakos.pdf") 0 texts
      ++ [EvRead (path_join data "summary.txt") (inr summary)]
    /\ heap w' !! self = Some (OInstance attrs)
    /\ attrs !! "bio" = Some (PStr (concat_texts texts))
    /\ attrs !! "summary" = Some (PStr summary).
Proof.
  intros Hnew data. unfold Me_new in Hnew.
  apply bind_Ok_inv in Hnew as (l & w0 & Halloc & Hnew).
  injection Halloc as <- <-.
  apply bind_Ok_inv in Hnew as ([] & w1 & Hinit & Hret).
  injection Hret as <- <-.
  set (l := fresh (dom (heap w))) in *.
  unfold Me_init in Hinit. cbv zeta in Hinit. fold data in Hinit.
  set (pdf_path := path_join data "chaniotakos.pdf") in *.
  set (summary_path := path_join data "summary.txt") in *.
  clearbody pdf_path summary_path.
  apply bind_Ok_inv in Hinit as ([] & w0 & Hopen & Hinit).
  apply external_Ok_inv in Hopen as (Hopen & ->).
  apply bind_Ok_inv in Hinit as ([] & w0 & Hset & Hinit).
  apply setattr_Ok_inv in Hset as (attrs0 & Hl0 & ->).
  cbn in Hl0. rewrite lookup_insert_eq in Hl0. injection Hl0 as <-.
  apply bind_Ok_inv in Hinit as ([] & w0 & Hset & Hinit).
  apply setattr_Ok_inv in Hset as (attrs0 & Hl0 & ->).
  cbn in Hl0. rewrite lookup_insert_eq in Hl0. injection Hl0 as <-.
  apply bind_Ok_inv in Hinit as (npages & w0 & Hpdf & Hinit).
  apply external_Ok_inv in Hpdf as (Hpdf & ->).
  apply bind_Ok_inv in Hinit as ([] & w0 & Hset & Hinit).
  apply setattr_Ok_inv in Hset as (attrs0 & Hl0 & ->).
  cbn in Hl0. rewrite lookup_insert_eq in Hl0. injection Hl0 as <-.
  apply bind_Ok_inv in Hinit as ([] & w0 & Hpages & Hinit).
  pose proof (pages_loop_events E l pdf_path 0 npages _ w0 Hpages)
    as (texts & Hlen & Htexts).
  eapply pages_loop_Ok with (b := "") in Hpages
    as (evs & attrs' & Htrace & Hl' & Hbio' & Hother);
    [| cbn; by rewrite lookup_insert_eq | by rewrite lookup_insert_eq].
  rewrite Htexts in Htrace. apply app_inv_head in Htrace. subst evs.
  rewrite extracted_text_extract_events in Hbio'.
  apply bind_Ok_inv in Hinit as (summary & w2 & Hread & Hset).
  apply external_Ok_inv in Hread as (Hread & ->).
  apply setattr_Ok_inv in Hset as (attrs0 & Hl0 & ->).
  cbn in Hl0. rewrite Hl' in Hl0. injection Hl0 as <-.
  exists texts, summary, (<["summary" := PStr summary]> attrs').
  split; [| split; [| split]].
  - cbn. rewrite Htexts. cbn. rewrite Hlen. by rewrite <- !app_assoc.
  - cbn. by rewrite lookup_insert_eq.
  - rewrite lookup_insert_ne by done. by rewrite Hbio'.
  - by rewrite lookup_insert_eq.
Qed.

Lemma constructor_reads_pages_in_order_witness :
  exists texts summary attrs,
    trace (Me_new (samples.sample_env samples.one_tool_then_answer) samples.world0).2
    = trace samples.world0
      ++ [EvOpenAI (inr tt);
          EvPdfReader (path_join (path_join (path_dirname "/app/me_with_tools.py")
                                    "data") "chaniotakos.pdf")
            (inr (List.length texts))]
      ++ extract_events (path_join (path_join (path_dirname "/app/me_with_tools.py")
                                      "data") "chaniotakos.pdf") 0 texts
      ++ [EvRead (path_join (path_join (path_dirname "/app/me_with_tools.py")
                               "data") "summary.txt") (inr summary)]
    /\ heap (Me_new (samples.sample_env samples.one_tool_then_answer)
               samples.world0).2 !! 0 = Some (OInstance attrs)
    /\ attrs !! "bio" = Some (PStr (concat_texts texts))
    /\ attrs !! "summary" = Some (PStr summary).
Proof.
  apply (constructor_reads_pages_in_order
           (samples.sample_env samples.one_tool_then_answer) samples.world0 0
           (Me_new (samples.sample_env samples.one_tool_then_answer)
              samples.world0).2).
  vm_compute. reflexivity.
Defined.

(** The paths of the sample construction. *)
Example sample_data_paths :
  path_join (path_join (path_dirname "/app/me_with_tools.py") "data")
    "chaniotakos.pdf" = "/app/data/chaniotakos.pdf"
  /\ path_join (path_join (path_dirname "me_with_tools.py") "data") "summary.txt"
     = "data/summary.txt".
Proof. split; reflexivity. Qed.

(** * The tool-calling loop from end to end *)

(** ** The events of a run of the loop *)






(** ** From [chat] into the loop and out of it *)


(** Without them [chat] raises before it asks the model. *)
Lemma Me_chat_setup E (me fuel self : nat) (question : pyval) (history : nat)
    (w : World) :
  (exists prompt hist,
     Me_system_prompt E self w = (Ok prompt, w)
     /\ heap w !! history = Some (OList hist))
  \/ exists e, Me_chat E me fuel self question history w = (Raise e, w).
Proof.
  unfold Me_chat.
  pose proof (system_prompt_world E self w) as Hw.
  assert (Hfin : (Me_system_prompt E self w).1 <> OutOfFuel).
  { unfold Me_system_prompt.
    apply finishes_bind; [apply finishes_getattr | intros name].
    apply finishes_bind; [apply finishes_getattr | intros summary].
    apply finishes_bind; [apply finishes_getattr | intros bio].
    apply finishes_ret. }
  destruct (Me_system_prompt E self w) as [[prompt | e |] w0] eqn:Hprompt;
    cbn in Hw, Hfin; subst w0; [| right | done].
  - destruct (heap w !! history) as [[hist | attrs] |] eqn:Hhist.
    + left. by exists prompt, hist.
    + right. exists TypeError. rewrite (bind_Ok _ _ _ _ _ Hprompt).
      unfold bind, read_list. by rewrite Hhist.
    + right. exists TypeError. rewrite (bind_Ok _ _ _ _ _ Hprompt).
      unfold bind, read_list. by rewrite Hhist.
  - exists e. by rewrite (bind_Raise _ _ _ _ _ Hprompt).
Qed.

Lemma chat_return_content (resp : ChatCompletion) (choice : Choice)
    (rest : list Choice) (w : World) :
  choices resp = choice :: rest ->
  chat_return {| done := true; response := Some resp |} w
  = (Ok (content_value (content (message choice))), w).
Proof. intros Hchoices. unfold chat_return, bind. cbn. by rewrite Hchoices. Qed.


(** ** The rounds of a run *)

(** The client of the instance is still there after a round. *)
Lemma client_after_round E (me self messages : nat) (calls : option (list ToolCall))
    (w : World) (client : pyval) (results : list pyval) (w2 : World) (o : obj) :
  getattr self "openai" w = (Ok client, w) ->
  heap w !! messages = Some o ->
  (forall attrs, o <> OInstance attrs) ->
  Me_handle_tool_call E me self calls w = (Ok results, w2) ->
  forall o',
    getattr self "openai" (with_heap w2 (<[messages := o']> (heap w2)))
    = (Ok client, with_heap w2 (<[messages := o']> (heap w2))).
Proof.
  intros Hclient Hm Ho Hhandle o'.
  apply getattr_Ok_inv in Hclient as (attrs & Hself & Hattr & _).
  assert (Hne : messages <> self).
  { intros ->. rewrite Hself in Hm. injection Hm as <-. by apply (Ho attrs). }
  pose proof (handle_tool_call_keeps_cell E me self calls self (OInstance attrs)
                w Hself) as Hself2.
  rewrite Hhandle in Hself2. cbn in Hself2.
  unfold getattr. cbn. rewrite lookup_insert_ne by done.
  by rewrite Hself2, Hattr.
Qed.

(** A run of the loop that exits went through rounds. *)
Lemma chat_loop_rounds E (me self messages fuel : nat) (st : ChatLoop) (w : World)
    (msgs : list pyval) (st' : ChatLoop) (w' : World) :
  done st = false ->
  heap w !! messages = Some (OList msgs) ->
  chat_loop E me self messages fuel st w = (Ok st', w') ->
  exists client n msgs' final,
    getattr self "openai" w = (Ok client, w)
    /\ tool_rounds E me messages w msgs n w' msgs' final
    /\ n < fuel
    /\ st' = {| done := true; response := Some final |}.
Proof.
  revert st w msgs. induction fuel as [| fuel IH]; intros st w msgs Hdone Hm Hloop;
    unfold chat_loop in Hloop; cbn [while_loop] in Hloop; rewrite Hdone in Hloop;
    cbn [negb] in Hloop; [discriminate |].
  apply bind_Ok_inv in Hloop as (st1 & w1 & Hbody & Hloop).
  apply chat_body_Ok_inv in Hbody
    as (client & msgs0 & resp & choice & rest & Hclient & Hm0 & Hcreate & Hchoices
        & Hresp & Hcase).
  rewrite Hm in Hm0. injection Hm0 as <-.
  destruct Hcase as [(Hplain & Hdone1 & ->)
                    | (Htools & Hdone1 & results & w2 & Hhandle & ->)].
  - exists client, 0, msgs, resp. split; [done |].
    destruct fuel; cbn in Hloop; rewrite Hdone1 in Hloop; cbn in Hloop;
      injection Hloop as <- <-;
      (split; [by econstructor |]); (split; [lia |]);
      destruct st1 as [d r]; cbn in *; by subst.
  - rewrite Hdone in Hdone1.
    destruct (tool_calls (message choice)) as [calls |] eqn:Hcalls;
      [| discriminate].
    cbn in Hhandle. apply handle_loop_Ok in Hhandle as (entries & -> & Hhandled).
    cbn [app] in Hloop.
    apply (IH st1 _ (msgs ++ PMessage (message choice) :: entries) Hdone1) in Hloop
      as (client' & n & msgs' & final & _ & Hrounds & Hn & ->);
      [| cbn; by rewrite lookup_insert_eq].
    exists client, (S n), msgs', final. split; [done |].
    split; [by econstructor | split; [lia | done]].
Qed.

(** Rounds that fit into the fuel are the run of the loop. *)
Lemma tool_rounds_chat_loop E (me self messages : nat) (w : World)
    (msgs : list pyval) (n : nat) (w' : World) (msgs' : list pyval)
    (final : ChatCompletion) :
  tool_rounds E me messages w msgs n w' msgs' final ->
  forall fuel st client,
    done st = false ->
    getattr self "openai" w = (Ok client, w) ->
    heap w !! messages = Some (OList msgs) ->
    n < fuel ->
    chat_loop E me self messages fuel st w
    = (Ok {| done := true; response := Some final |}, w').
Proof.
  induction 1 as [w msgs final choice rest Hcreate Hchoices Hplain
                 | w msgs resp choice rest calls entries w2 n w' msgs' final
                     Hcreate Hchoices Htools Hcalls Hhandled Hrounds IH];
    intros fuel st client Hdone Hclient Hm Hn; (destruct fuel as [| fuel]; [lia |]).
  - unfold chat_loop. cbn [while_loop]. rewrite Hdone. cbn [negb].
    rewrite (bind_Ok _ _ _ _ _ (chat_body_plain E me self messages st w client
                                  msgs final choice rest Hclient Hm Hcreate
                                  Hchoices Hplain)).
    by destruct fuel.
  - assert (Hhandle : Me_handle_tool_call E me self (tool_calls (message choice))
                        (arrived w msgs (inr resp)) = (Ok entries, w2)).
    { rewrite Hcalls. cbn. apply handle_loop_Ok. by exists entries. }
    rewrite (chat_loop_continues E me self messages fuel st w client msgs resp
               choice rest entries w2 Hdone Hclient Hm Hcreate Hchoices Htools
               Hhandle).
    apply (IH fuel _ client); [done | | cbn; by rewrite lookup_insert_eq | lia].
    apply (client_after_round E me self messages (tool_calls (message choice))
             (arrived w msgs (inr resp)) client entries w2 (OList msgs));
      try done.
    apply getattr_Ok_inv in Hclient as (attrs & Hself & Hattr & _).
    unfold getattr. cbn. by rewrite Hself, Hattr.
Qed.

(** ** The exit of the loop *)


(** The sample model that always asks for a tool is one whose every
    completion asks for tool calls. *)
Example always_asking_model_asks_for_tools :
  forall t req resp choice rest,
    completions_create (samples.sample_env samples.always_asks) t req = inr resp ->
    choices resp = choice :: rest ->
    finish_reason choice = "tool_calls".
Proof.
  intros t req resp choice rest Hcreate Hchoices. cbn in Hcreate.
  injection Hcreate as <-. cbn in Hchoices. by injection Hchoices as <- <-.
Qed.

(** ** The loop repeats *)

(** C3, amended.  In me_with_tools.py the loop repeats until a plain
    answer.  (1) [chat] returns exactly when its run is a sequence of
    rounds that fits into the fuel: each of the first [n] completions asks
    for tool calls, every call is executed, the model's message and then
    the entries of the calls are appended to the message list, and the
    model is asked again with the list so extended; the completion after
    the last round does not ask for tool calls, and [chat] returns its
    content.  (2) In particular, when the model requests tools and every
    call is executed, the next iteration asks the model again, first thing,
    with the message list extended by the model's message and the entries
    of the calls.  In router.py the graph does not loop: (3) a run
    invokes the model, and when the reply requests tools they are run,
    their messages are appended after the reply, and the run ends there;
    (4) every run invokes the model exactly once. *)
Theorem tool_loop_repeats_in_chat_not_in_router :
  (forall E (me fuel self : nat) question history w v w',
     Me_chat E me fuel self question history w = (Ok v, w')
     <-> exists prompt hist client n msgs' final choice rest,
           Me_system_prompt E self w = (Ok prompt, w)
           /\ heap w !! history = Some (OList hist)
           /\ getattr self "openai" w = (Ok client, w)
           /\ tool_rounds E me (fresh (dom (heap w)))
                (with_heap w
                   (<[fresh (dom (heap w)) :=
                        OList (first_messages prompt hist question)]> (heap w)))
                (first_messages prompt hist question) n w' msgs' final
           /\ n < fuel
           /\ choices final = choice :: rest
           /\ v = content_value (content (message choice)))
  /\ (forall E (me self messages fuel : nat) st w client msgs resp choice rest
          calls results w2,
     done st = false ->
     getattr self "openai" w = (Ok client, w) ->
     heap w !! messages = Some (OList msgs) ->
     completions_create E (trace w) (chat_request msgs) = inr resp ->
     choices resp = choice :: rest ->
     finish_reason choice = "tool_calls" ->
     tool_calls (message choice) = Some calls ->
     handled E me (arrived w msgs (inr resp)) calls results w2 ->
     let msgs' := msgs ++ PMessage (message choice) :: results in
     let w3 := with_heap w2 (<[messages := OList msgs']> (heap w2)) in
     chat_loop E me self messages (S (S fuel)) st w
     = chat_loop E me self messages (S fuel)
         {| done := false; response := Some resp |} w3
     /\ exists evs,
          trace (chat_loop E me self messages (S (S fuel)) st w).2
          = trace w3
            ++ EvCreate (chat_request msgs')
                 (completions_create E (trace w3) (chat_request msgs')) :: evs)
  /\ (forall E state w,
        router.invoke (router.graph E) state w
        = match router.llm_reply E w state with
          | inl e => (Raise e, router.invoked E w state)
          | inr (router.AIMessage text (request :: requests)) =>
              match router.run_tools E (request :: requests)
                      (router.invoked E w state) with
              | (Ok tool_messages, _) =>
                  (Ok ((state ++ [router.AIMessage text (request :: requests)])
                       ++ tool_messages),
                   router.invoked E w state)
              | (Raise e, _) => (Raise e, router.invoked E w state)
              | (OutOfFuel, _) => (OutOfFuel, router.invoked E w state)
              end
          | inr reply => (Ok (state ++ [reply]), router.invoked E w state)
          end)
  /\ (forall E state w,
        router.trace (router.invoke (router.graph E) state w).2
        = router.trace w ++ [router.EvInvoke state (router.llm_reply E w state)]).
Proof.
  split; [| split; [| split]].
  - intros E me fuel self question history w v w'.
    assert (Henter : forall prompt hist,
      Me_system_prompt E self w = (Ok prompt, w) ->
      heap w !! history = Some (OList hist) ->
      Me_chat E me fuel self question history w
      = (st <- chat_loop E me self (fresh (dom (heap w))) fuel
                 {| done := false; response := None |} ;;
         chat_return st)
          (with_heap w
             (<[fresh (dom (heap w)) := OList (first_messages prompt hist question)]>
                (heap w)))).
    { intros prompt hist Hprompt Hhist. unfold Me_chat.
      rewrite (bind_Ok _ _ _ _ _ Hprompt).
      assert (Hread : read_list history w = (Ok hist, w))
        by (unfold read_list; by rewrite Hhist).
      by rewrite (bind_Ok _ _ _ _ _ Hread). }
    split.
    + intros Hchat.
      destruct (Me_chat_setup E me fuel self question history w)
        as [(prompt & hist & Hprompt & Hhist) | (e & Hraise)]; [| congruence].
      rewrite (Henter prompt hist Hprompt Hhist) in Hchat.
      apply bind_Ok_inv in Hchat as (st & w2 & Hloop & Hret).
      apply chat_loop_rounds
        with (msgs := first_messages prompt hist question) in Hloop
        as (client & n & msgs' & final & Hclient & Hrounds & Hn & ->);
        [| done | cbn; by rewrite lookup_insert_eq].
      assert (Hchoices : exists choice rest, choices final = choice :: rest).
      { clear -Hrounds. induction Hrounds; eauto. }
      destruct Hchoices as (choice & rest & Hchoices).
      rewrite (chat_return_content final choice rest w2 Hchoices) in Hret.
      injection Hret as <- <-.
      apply getattr_Ok_inv in Hclient as (attrs & Hself & Hattr & _).
      cbn in Hself.
      assert (Hne : fresh (dom (heap w)) <> self).
      { intros Heq. rewrite Heq, lookup_insert_eq in Hself. discriminate. }
      rewrite lookup_insert_ne in Hself by done.
      exists prompt, hist, client, n, msgs', final, choice, rest.
      repeat split; try done. unfold getattr. by rewrite Hself, Hattr.
    + intros (prompt & hist & client & n & msgs' & final & choice & rest & Hprompt
              & Hhist & Hclient & Hrounds & Hn & Hchoices & ->).
      rewrite (Henter prompt hist Hprompt Hhist).
      apply getattr_Ok_inv in Hclient as (attrs & Hself & Hattr & _).
      assert (Hne : fresh (dom (heap w)) <> self).
      { intros Heq. pose proof (fresh_not_allocated (heap w)) as Hfresh.
        rewrite Heq in Hfresh. congruence. }
      rewrite (bind_Ok _ _ _ _ _
                 (tool_rounds_chat_loop E me self _ _ _ n w' msgs' final Hrounds
                    fuel {| done := false; response := None |} client eq_refl
                    ltac:(unfold getattr; cbn; rewrite lookup_insert_ne by done;
                          by rewrite Hself, Hattr)
                    ltac:(cbn; by rewrite lookup_insert_eq) Hn)).
      by apply chat_return_content with (rest := rest).
  - intros E me self messages fuel st w client msgs resp choice rest calls
      results w2 Hdone Hclient Hm Hcreate Hchoices Htools Hcalls Hhandled msgs' w3.
    assert (Hhandle : Me_handle_tool_call E me self (tool_calls (message choice))
                        (arrived w msgs (inr resp)) = (Ok results, w2)).
    { rewrite Hcalls. unfold Me_handle_tool_call. apply handle_loop_Ok.
      by exists results. }
    assert (Hstep : chat_loop E me self messages (S (S fuel)) st w
                    = chat_loop E me self messages (S fuel)
                        {| done := false; response := Some resp |} w3).
    { by apply chat_loop_continues with (client := client) (rest := rest). }
    split; [exact Hstep |]. rewrite Hstep.
    apply chat_loop_first_event with (client := client);
      [done | | cbn; by rewrite lookup_insert_eq].
    by apply (client_after_round E me self messages (tool_calls (message choice))
                (arrived w msgs (inr resp)) client results w2 (OList msgs)
                ltac:(apply getattr_Ok_inv in Hclient as (attrs & Hself & Hattr & _);
                      unfold getattr; cbn; by rewrite Hself, Hattr)
                Hm ltac:(done) Hhandle).
  - apply router_invoke_cases.
  - intros E state w. rewrite router_invoke_cases.
    change (router.trace w ++ [router.EvInvoke state (router.llm_reply E w state)])
      with (router.trace (router.invoked E w state)).
    destruct (router.llm_reply E w state)
      as [e | [text | text [| request requests] | text name id]]; try done.
    by destruct (router.run_tools E (request :: requests) (router.invoked E w state))
      as [[tool_messages | e |] w1].
Qed.

(** C3 as stated fails on the router: the model asks for [multiply(2, 3)],
    the tool node answers 6, and the run ends with that tool message as its
    last message.  The model has been invoked once; it is not shown the
    result. *)
Lemma router_stops_after_tool_node :
  router.invoke (router.graph samples.router_env)
    [router.HumanMessage "What is 2 times 3?"] samples.router_world0
  = (Ok [router.HumanMessage "What is 2 times 3?";
         router.AIMessage "" [samples.product_request];
         router.ToolMessage "6" "multiply" "call_1"],
     {| router.trace :=
          [router.EvInvoke [router.HumanMessage "What is 2 times 3?"]
             (inr (router.AIMessage "" [samples.product_request]))] |}).
Proof. vm_compute. reflexivity. Qed.

(** * Further properties of router.py *)

Lemma router_run_tools_Ok E (rs : list router.ToolRequest) (w : router.World)
    (ms : list router.msg) (w' : router.World) :
  router.run_tools E rs w = (Ok ms, w') -> Forall2 (answers E) rs ms.
Proof.
  revert ms. induction rs as [| r rs IH]; intros ms Hrun; cbn in Hrun.
  - injection Hrun as <- <-. constructor.
  - unfold bind in Hrun.
    destruct (router.run_tool E r) as [e | text] eqn:Htool; cbn in Hrun;
      [discriminate |].
    destruct (router.run_tools E rs w) as [[rest | e |] w1]; try discriminate.
    injection Hrun as <- <-. constructor; [by exists text | by apply IH].
Qed.

(** X10.  A run of the router graph that returns gives back the messages it
    was given, followed by the model's reply, followed by one tool message
    per request of the reply, in the order of the requests, each with the
    name and the id of its request and the text the tool answered. *)
Theorem router_result_shape E (state : list router.msg) (w : router.World)
    (final : list router.msg) (w' : router.World) :
  router.invoke (router.graph E) state w = (Ok final, w') ->
  exists text requests tool_messages,
    router.llm_invoke E (router.trace w) state = inr (text, requests)
    /\ final = state ++ [router.AIMessage text requests] ++ tool_messages
    /\ Forall2 (answers E) requests tool_messages.
Proof.
  rewrite router_invoke_cases. unfold router.llm_reply.
  destruct (router.llm_invoke E (router.trace w) state)
    as [e | [text [| request requests]]] eqn:Hllm; [discriminate | |].
  - intros H. injection H as <- <-. exists text, [], [].
    split; [done |]. split; [done | constructor].
  - destruct (router.run_tools E (request :: requests) (router.invoked E w state))
      as [[tool_messages | e |] w1] eqn:Hrun; try discriminate.
    intros H. injection H as <- <-. exists text, (request :: requests), tool_messages.
    split; [done |]. split; [by rewrite <- app_assoc |].
    by apply (router_run_tools_Ok E _ _ _ _ Hrun).
Qed.

Lemma router_result_shape_witness :
  exists text requests tool_messages,
    router.llm_invoke more_samples.router_env
      (router.trace samples.router_world0)
      [router.HumanMessage "2 times 3, and 40 plus 2?"]
    = inr (text, requests)
    /\ [router.HumanMessage "2 times 3, and 40 plus 2?";
        router.AIMessage "" more_samples.two_requests;
        router.ToolMessage "6" "multiply" "call_1";
        router.ToolMessage "42" "add" "call_2"]
       = [router.HumanMessage "2 times 3, and 40 plus 2?"]
         ++ [router.AIMessage text requests] ++ tool_messages
    /\ Forall2 (answers more_samples.router_env) requests tool_messages.
Proof.
  apply (router_result_shape more_samples.router_env
           [router.HumanMessage "2 times 3, and 40 plus 2?"]
           samples.router_world0 _
           (router.invoke (router.graph more_samples.router_env)
              [router.HumanMessage "2 times 3, and 40 plus 2?"]
              samples.router_world0).2).
  vm_compute. reflexivity.
Defined.

(** A run from the model node with room for three steps, case by case. *)
Lemma router_run_cases E (limit : nat) (state : list router.msg) (w : router.World) :
  router.run_from (S (S (S limit))) (router.graph E) "tool_calling_llm" state w
  = match router.llm_reply E w state with
    | inl e => (Raise e, router.invoked E w state)
    | inr (router.AIMessage text (request :: requests)) =>
        match router.run_tools E (request :: requests) (router.invoked E w state) with
        | (Ok tool_messages, _) =>
            (Ok ((state ++ [router.AIMessage text (request :: requests)])
                 ++ tool_messages),
             router.invoked E w state)
        | (Raise e, _) => (Raise e, router.invoked E w state)
        | (OutOfFuel, _) => (OutOfFuel, router.invoked E w state)
        end
    | inr reply => (Ok (state ++ [reply]), router.invoked E w state)
    end.
Proof.
  rewrite router_run_from_step, router_node_llm by reflexivity.
  unfold bind at 1. unfold router.tool_calling_llm. unfold bind at 1.
  assert (Hreply : forall m, router.llm_reply E w state = inr m ->
            exists text requests, m = router.AIMessage text requests).
  { intros m. unfold router.llm_reply.
    destruct (router.llm_invoke E (router.trace w) state) as [e | [text requests]];
      [discriminate |].
    intros H. injection H as <-. by exists text, requests. }
  destruct (router.llm_reply E w state) as [e | reply]; [done |].
  destruct (Hreply reply eq_refl) as (text & requests & ->). cbn [router.lift ret].
  rewrite router_after_llm. unfold router.tools_condition. rewrite last_snoc.
  destruct requests as [| request requests].
  - cbn [router.lift]. rewrite !bind_ret_l. by rewrite router_run_from_end.
  - cbn [router.lift]. rewrite !bind_ret_l.
    rewrite router_run_from_step, router_node_tools by reflexivity.
    unfold router.tool_node at 1. rewrite last_snoc.
    pose proof (router_run_tools_pure E (request :: requests)
                  (router.invoked E w state)) as Hpure.
    unfold bind at 1.
    destruct (router.run_tools E (request :: requests) (router.invoked E w state))
      as [[tool_messages | e |] w1]; cbn in Hpure; by subst w1.
Qed.

(** X11.  The graph has no cycle: a run executes the model node and at
    most the tool node, so with any recursion limit of at least three a run
    gives the result of [invoke], whose limit is 25.  The limit counts the
    step in which the library finds the run over: with a limit of one every
    reply of the model ends in the recursion error, and with a limit of two
    a reply that requests tools ends in it after the tools have run. *)
Theorem router_run_takes_at_most_two_steps E (limit : nat)
    (state : list router.msg) (w : router.World) :
  3 <= limit ->
  router.run_from limit (router.graph E) "tool_calling_llm" state w
  = router.invoke (router.graph E) state w
  /\ (forall text requests,
        router.llm_invoke E (router.trace w) state = inr (text, requests) ->
        router.run_from 1 (router.graph E) "tool_calling_llm" state w
        = (Raise (LibraryError "GraphRecursionError"), router.invoked E w state))
  /\ (forall text request requests tool_messages w1,
        router.llm_invoke E (router.trace w) state
        = inr (text, request :: requests) ->
        router.run_tools E (request :: requests) (router.invoked E w state)
        = (Ok tool_messages, w1) ->
        router.run_from 2 (router.graph E) "tool_calling_llm" state w
        = (Raise (LibraryError "GraphRecursionError"), router.invoked E w state)).
Proof.
  intros Hlimit. split; [| split].
  - destruct limit as [| [| [| limit]]]; try lia.
    by rewrite router_run_cases, router_invoke_cases.
  - intros text requests Hllm.
    rewrite router_run_from_step, router_node_llm by reflexivity.
    unfold bind at 1. unfold router.tool_calling_llm. unfold bind at 1.
    assert (Hreply : router.llm_reply E w state
                     = inr (router.AIMessage text requests))
      by (unfold router.llm_reply; by rewrite Hllm).
    rewrite Hreply. cbn [router.lift ret].
    rewrite router_after_llm. unfold router.tools_condition. rewrite last_snoc.
    destruct requests as [| request requests]; cbn [router.lift];
      by rewrite !bind_ret_l, router_run_from_limit.
  - intros text request requests tool_messages w1 Hllm Hrun.
    rewrite router_run_from_step, router_node_llm by reflexivity.
    unfold bind at 1. unfold router.tool_calling_llm. unfold bind at 1.
    assert (Hreply : router.llm_reply E w state
                     = inr (router.AIMessage text (request :: requests)))
      by (unfold router.llm_reply; by rewrite Hllm).
    rewrite Hreply. cbn [router.lift ret].
    rewrite router_after_llm. unfold router.tools_condition. rewrite last_snoc.
    cbn [router.lift]. rewrite !bind_ret_l.
    rewrite router_run_from_step, router_node_tools by reflexivity.
    unfold router.tool_node at 1. rewrite last_snoc.
    pose proof (router_run_tools_pure E (request :: requests)
                  (router.invoked E w state)) as Hpure.
    rewrite Hrun in Hpure. cbn in Hpure. subst w1.
    rewrite (bind_Ok _ _ _ _ _ Hrun).
    by rewrite router_after_tools, bind_ret_l, router_run_from_limit.
Qed.

Lemma router_run_takes_at_most_two_steps_witness :
  router.run_from 3 (router.graph samples.router_env) "tool_calling_llm"
    [router.HumanMessage "What is 2 times 3?"] samples.router_world0
  = router.invoke (router.graph samples.router_env)
      [router.HumanMessage "What is 2 times 3?"] samples.router_world0
  /\ (forall text requests,
        router.llm_invoke samples.router_env (router.trace samples.router_world0)
          [router.HumanMessage "What is 2 times 3?"]
        = inr (text, requests) ->
        router.run_from 1 (router.graph samples.router_env) "tool_calling_llm"
          [router.HumanMessage "What is 2 times 3?"] samples.router_world0
        = (Raise (LibraryError "GraphRecursionError"),
           router.invoked samples.router_env samples.router_world0
             [router.HumanMessage "What is 2 times 3?"]))
  /\ (forall text request requests tool_messages w1,
        router.llm_invoke samples.router_env (router.trace samples.router_world0)
          [router.HumanMessage "What is 2 times 3?"]
        = inr (text, request :: requests) ->
        router.run_tools samples.router_env (request :: requests)
          (router.invoked samples.router_env samples.router_world0
             [router.HumanMessage "What is 2 times 3?"])
        = (Ok tool_messages, w1) ->
        router.run_from 2 (router.graph samples.router_env) "tool_calling_llm"
          [router.HumanMessage "What is 2 times 3?"] samples.router_world0
        = (Raise (LibraryError "GraphRecursionError"),
           router.invoked samples.router_env samples.router_world0
             [router.HumanMessage "What is 2 times 3?"])).
Proof.
  apply (router_run_takes_at_most_two_steps samples.router_env 3
           [router.HumanMessage "What is 2 times 3?"] samples.router_world0).
  lia.
Defined.

(** The sample run at the limits one, two and three: the model is invoked
    each time; only the limit of three lets the run return. *)
Example router_sample_limits :
  (router.run_from 1 (router.graph samples.router_env) "tool_calling_llm"
     [router.HumanMessage "What is 2 times 3?"] samples.router_world0).1
  = Raise (LibraryError "GraphRecursionError")
  /\ (router.run_from 2 (router.graph samples.router_env) "tool_calling_llm"
        [router.HumanMessage "What is 2 times 3?"] samples.router_world0).1
     = Raise (LibraryError "GraphRecursionError")
  /\ (router.run_from 3 (router.graph samples.router_env) "tool_calling_llm"
        [router.HumanMessage "What is 2 times 3?"] samples.router_world0).1
     = Ok [router.HumanMessage "What is 2 times 3?";
           router.AIMessage "" [samples.product_request];
           router.ToolMessage "6" "multiply" "call_1"].
Proof. repeat split; vm_compute; reflexivity. Qed.
